(** * Shift-based batch normalisation (Train-time/shift_batch_norm.py)

    A shallow embedding of [BatchNormSfhitPow2Layer] and [batch_norm_pow_2].

    Numbers.  The layer computes on floating-point tensors.  Rounding error
    and overflow are not modelled: an element is an exact real number or one
    of the three special values of the floating-point format (plus infinity,
    minus infinity, not-a-number).  Signed zeros are identified.

    Tensors.  A tensor is a shape together with an indexing function; every
    operation of the tensor engine returns a tensor whose entries outside its
    shape are [NaN], so that two results are equal as soon as they agree on
    their shape and on every valid index.

    Python.  Errors raised by the Python code itself ([ValueError],
    [IndexError], [KeyError]) are explicit results.  Persistent shared
    variables ([self.centered], [self.mean], [self.std]) are an explicit
    store that the forward pass takes and returns. *)

From Stdlib Require Import String.
From Stdlib Require Import Reals Lra Lia ZArith List Bool.
From Stdlib Require Import FunctionalExtensionality.
Import ListNotations.

Local Open Scope R_scope.

(** ** Elements *)

Inductive fl : Type :=
| Fin (r : R)
| PInf
| NInf
| NaN.

Definition is_finite (x : fl) : Prop :=
  match x with Fin _ => True | _ => False end.

Definition Rzerob (r : R) : bool :=
  if Req_dec_T r 0 then true else false.

Definition Rposb (r : R) : bool :=
  if Rlt_dec 0 r then true else false.

Definition Rnegb (r : R) : bool :=
  if Rlt_dec r 0 then true else false.

(** The infinity whose sign is the sign of [r]; [NaN] for [r = 0]. *)
Definition signed_inf (r : R) : fl :=
  if Rzerob r then NaN else if Rposb r then PInf else NInf.

Definition fneg (x : fl) : fl :=
  match x with
  | Fin r => Fin (- r)
  | PInf => NInf
  | NInf => PInf
  | NaN => NaN
  end.

Definition fadd (x y : fl) : fl :=
  match x, y with
  | NaN, _ | _, NaN => NaN
  | Fin a, Fin b => Fin (a + b)
  | PInf, NInf | NInf, PInf => NaN
  | PInf, _ | _, PInf => PInf
  | NInf, _ | _, NInf => NInf
  end.

Definition fsub (x y : fl) : fl := fadd x (fneg y).

Definition fmul (x y : fl) : fl :=
  match x, y with
  | NaN, _ | _, NaN => NaN
  | Fin a, Fin b => Fin (a * b)
  | Fin a, PInf | PInf, Fin a => signed_inf a
  | Fin a, NInf | NInf, Fin a => signed_inf (- a)
  | PInf, PInf | NInf, NInf => PInf
  | PInf, NInf | NInf, PInf => NInf
  end.

Definition finv (x : fl) : fl :=
  match x with
  | Fin r => if Rzerob r then PInf else Fin (/ r)
  | PInf | NInf => Fin 0
  | NaN => NaN
  end.

Definition fdiv (x y : fl) : fl := fmul x (finv y).

Definition fabs (x : fl) : fl :=
  match x with
  | Fin r => Fin (Rabs r)
  | PInf | NInf => PInf
  | NaN => NaN
  end.

Definition fsqrt (x : fl) : fl :=
  match x with
  | Fin r => if Rnegb r then NaN else Fin (sqrt r)
  | PInf => PInf
  | NInf | NaN => NaN
  end.

Definition log2 (r : R) : R := ln r / ln 2.

Definition flog2 (x : fl) : fl :=
  match x with
  | Fin r => if Rnegb r then NaN else if Rzerob r then NInf else Fin (log2 r)
  | PInf => PInf
  | NInf | NaN => NaN
  end.

(** [T.round]: rounding to the nearest integer, ties away from zero.  The
    results below use of it only that it moves a number by at most one
    half. *)
Definition round_half_away (r : R) : Z :=
  if Rnegb r then (- Zfloor (- r + / 2))%Z else Zfloor (r + / 2).

Definition fround (x : fl) : fl :=
  match x with
  | Fin r => Fin (IZR (round_half_away r))
  | _ => x
  end.

(** [2. ** x] *)
Definition fpow2 (x : fl) : fl :=
  match x with
  | Fin r => Fin (Rpower 2 r)
  | PInf => PInf
  | NInf => Fin 0
  | NaN => NaN
  end.

(** Comparison yields the number 1 or 0, as the engine's [eq] does. *)
Definition feq (x y : fl) : fl :=
  match x, y with
  | Fin a, Fin b => if Req_dec_T a b then Fin 1 else Fin 0
  | PInf, PInf | NInf, NInf => Fin 1
  | _, _ => Fin 0
  end.

Definition truthy (c : fl) : bool :=
  match c with
  | Fin r => negb (Rzerob r)
  | _ => true
  end.

Definition fswitch (c a b : fl) : fl := if truthy c then a else b.

Definition fsum (l : list fl) : fl := fold_right fadd (Fin 0) l.

(** ** Tensors *)

Definition index := list nat.

Record tensor : Type := mkTensor {
  shape : list nat;
  val : index -> fl
}.

Fixpoint validb (sh : list nat) (i : index) : bool :=
  match sh, i with
  | [], [] => true
  | n :: sh', k :: i' => (k <? n)%nat && validb sh' i'
  | _, _ => false
  end.

Definition tabulate (sh : list nat) (f : index -> fl) : tensor :=
  mkTensor sh (fun i => if validb sh i then f i else NaN).

Definition canonical (t : tensor) : Prop :=
  forall i, validb (shape t) i = false -> val t i = NaN.

Definition all_finite (t : tensor) : Prop :=
  forall i, validb (shape t) i = true -> is_finite (val t i).

(** Broadcasting: an extent of 1 is stretched to the extent of the other
    operand, and is always read at position 0. *)
Fixpoint bshape (s1 s2 : list nat) : list nat :=
  match s1, s2 with
  | a :: s1', b :: s2' => (if (a =? 1)%nat then b else a) :: bshape s1' s2'
  | _, _ => []
  end.

Fixpoint bidx (sh : list nat) (i : index) : index :=
  match sh, i with
  | n :: sh', k :: i' => (if (n =? 1)%nat then 0%nat else k) :: bidx sh' i'
  | _, _ => i
  end.

Definition elementwise1 (f : fl -> fl) (t : tensor) : tensor :=
  tabulate (shape t) (fun i => f (val t i)).

Definition elementwise2 (f : fl -> fl -> fl) (a b : tensor) : tensor :=
  tabulate (bshape (shape a) (shape b))
    (fun i => f (val a (bidx (shape a) i)) (val b (bidx (shape b) i))).

(** [reduces rank axes d]: axis [d] of a tensor of rank [rank] is one of
    [axes]; a negative axis counts from the last one. *)
Definition reduces (rank : nat) (axes : list Z) (d : nat) : bool :=
  existsb (fun a => ((if a <? 0 then a + Z.of_nat rank else a) =? Z.of_nat d)%Z)
          axes.

(** Shape of a reduction that keeps the reduced axes with extent 1. *)
Fixpoint kshape (red : nat -> bool) (d : nat) (sh : list nat) : list nat :=
  match sh with
  | [] => []
  | n :: sh' => (if red d then 1%nat else n) :: kshape red (S d) sh'
  end.

(** The positions of a tensor of shape [sh] that are reduced into position
    [i] of the result. *)
Fixpoint fiber (red : nat -> bool) (d : nat) (sh : list nat) (i : index)
  : list index :=
  match sh with
  | [] => [[]]
  | n :: sh' =>
      let rest := fiber red (S d) sh' (tl i) in
      if red d then flat_map (fun k => map (cons k) rest) (seq 0 n)
      else map (cons (hd 0%nat i)) rest
  end.

(** The operations of the tensor engine that the layer uses. *)
Module T.

Definition abs_ : tensor -> tensor := elementwise1 fabs.
Definition log2 : tensor -> tensor := elementwise1 flog2.
Definition round : tensor -> tensor := elementwise1 fround.
Definition sqrt : tensor -> tensor := elementwise1 fsqrt.
Definition inv : tensor -> tensor := elementwise1 finv.

(** [T.pow(2., t)] *)
Definition pow2 : tensor -> tensor := elementwise1 fpow2.

(** [T.eq(t, c)] for a scalar constant [c]. *)
Definition eq (t : tensor) (c : R) : tensor :=
  elementwise1 (fun x => feq x (Fin c)) t.

(** [T.switch(cond, c, t)] for a scalar constant [c]. *)
Definition switch (cond : tensor) (c : R) (t : tensor) : tensor :=
  elementwise2 (fun cv tv => fswitch cv (Fin c) tv) cond t.

Definition add : tensor -> tensor -> tensor := elementwise2 fadd.
Definition sub : tensor -> tensor -> tensor := elementwise2 fsub.
Definition mul : tensor -> tensor -> tensor := elementwise2 fmul.

(** [t + c] and [c * t] for a scalar constant [c]. *)
Definition adds (t : tensor) (c : R) : tensor :=
  elementwise1 (fun x => fadd x (Fin c)) t.
Definition muls (c : R) (t : tensor) : tensor :=
  elementwise1 (fun x => fmul (Fin c) x) t.

(** [t.mean(axes, keepdims=True)]: the sum over the reduced positions
    divided by their number. *)
Definition mean (t : tensor) (axes : list Z) : tensor :=
  let red := reduces (length (shape t)) axes in
  tabulate (kshape red 0 (shape t))
    (fun i =>
       let els := map (val t) (fiber red 0 (shape t) i) in
       fdiv (fsum els) (Fin (INR (length els)))).

(** [T.addbroadcast] changes the static type of a tensor only. *)
Definition addbroadcast (t : tensor) (axes : list Z) : tensor := t.

Definition constant (sh : list nat) (c : R) : tensor :=
  tabulate sh (fun _ => Fin c).

End T.

(** ** Python results *)

Inductive exn : Type := ValueError | IndexError | KeyError.

Inductive result (A : Type) : Type :=
| Ok (a : A)
| Raise (e : exn).

Arguments Ok {A} a.
Arguments Raise {A} e.

Definition bind {A B : Type} (r : result A) (k : A -> result B) : result B :=
  match r with
  | Ok a => k a
  | Raise e => Raise e
  end.

Notation "x <- r ;; k" := (bind r (fun x => k))
  (at level 61, r at next level, right associativity).

(** [l[a]] for a Python list of length [len]: the position denoted by the
    integer [a], if any. *)
Definition py_index (len : nat) (a : Z) : option nat :=
  if ((0 <=? a) && (a <? Z.of_nat len))%Z then Some (Z.to_nat a)
  else if ((- Z.of_nat len <=? a) && (a <? 0))%Z
       then Some (Z.to_nat (a + Z.of_nat len))
       else None.

Fixpoint set_nth {A : Type} (l : list A) (n : nat) (v : A) : list A :=
  match l, n with
  | [], _ => []
  | _ :: l', O => v :: l'
  | x :: l', S n' => x :: set_nth l' n' v
  end.

(** [l[a] = v] *)
Definition py_setitem {A : Type} (l : list A) (a : Z) (v : A)
  : result (list A) :=
  match py_index (length l) a with
  | Some n => Ok (set_nth l n v)
  | None => Raise IndexError
  end.

(** ** The layer given to the wiring helper *)

(** An attribute of a Python object: absent, or present with a value. *)
Inductive attribute (A : Type) : Type :=
| Missing
| Has (a : A).

Arguments Missing {A}.
Arguments Has {A} a.

(** A layer of the framework, as far as [batch_norm_pow_2] and the forward
    pass of a stack look at it.  [host_nonlinearity] is what
    [getattr(layer, 'nonlinearity', None)] returns; [b] is the attribute
    [b], which holds a registered parameter or [None]; [host_params] is the
    dictionary [layer.params] from parameters to their tags. *)
Record Layer : Type := mkHost {
  output_shape : list (option nat);
  host_nonlinearity : option (tensor -> tensor);
  b : attribute (option string);
  host_params : list (string * list string);
  linear : tensor -> tensor;
  add_bias : tensor -> tensor
}.

(** Forward pass of the framework's dense and convolutional layers: the
    bias is added when [b] is a parameter, then the nonlinearity is
    applied. *)
Definition host_output (l : Layer) (input : tensor) : tensor :=
  let activation := linear l input in
  let activation :=
    match b l with
    | Has (Some _) => add_bias l activation
    | _ => activation
    end in
  match host_nonlinearity l with
  | Some f => f activation
  | None => activation
  end.

Definition has_key {A : Type} (k : string) (d : list (string * A)) : bool :=
  existsb (fun kv => String.eqb k (fst kv)) d.

(** [del d[k]] *)
Definition py_delitem {A : Type} (d : list (string * A)) (k : string)
  : result (list (string * A)) :=
  if has_key k d
  then Ok (filter (fun kv => negb (String.eqb k (fst kv))) d)
  else Raise KeyError.

(** ** The layer *)

(** The [axes] argument of the constructor. *)
Inductive axes_arg : Type :=
| AxesNone
| AxesInt (a : Z)
| AxesTuple (l : list Z).

(** The [incoming] argument of the constructor. *)
Inductive incoming_arg : Type :=
| FromShape (s : list (option nat))
| FromLayer (l : Layer).

Record BatchNormSfhitPow2Layer : Type := mkLayer {
  input_layer : option Layer;
  input_shape : list (option nat);
  axes : list Z;
  epsilon : R;
  alpha : R;
  nonlinearity : tensor -> tensor
}.

(** The shared variables registered by the constructor. *)
Record params : Type := mkParams {
  centered : tensor;
  mean : tensor;
  std : tensor
}.

Definition identity (t : tensor) : tensor := t.

Definition default_epsilon : R := 1 / 100000.
Definition default_alpha : R := 1 / 8.

Definition is_None {A : Type} (o : option A) : bool :=
  match o with None => true | Some _ => false end.

Definition default_axes (rank : nat) : list Z :=
  0%Z :: map Z.of_nat (seq 2 (rank - 2)).

(** [for axis in self.axes: shape[axis] = 1].  The list [broadcast] that
    the same loop fills is never read. *)
Fixpoint mark_axes (shape : list (option nat)) (axes : list Z)
  : result (list (option nat)) :=
  match axes with
  | [] => Ok shape
  | axis :: rest =>
      shape' <- py_setitem shape axis (Some 1%nat) ;;
      mark_axes shape' rest
  end.

Definition sizes (shape : list (option nat)) : list nat :=
  map (fun o => match o with Some n => n | None => 0%nat end) shape.

(** [__init__].  The constructor of the base class stores the input layer
    and the input shape; [add_param] creates the three shared variables
    with the given constant. *)
Definition init (incoming : incoming_arg) (axes : axes_arg)
    (epsilon alpha : R) (nonlinearity : option (tensor -> tensor))
  : result (BatchNormSfhitPow2Layer * params) :=
  let '(input_layer, input_shape) :=
    match incoming with
    | FromShape s => (None, s)
    | FromLayer l => (Some l, output_shape l)
    end in
  let axes :=
    match axes with
    | AxesNone => default_axes (length input_shape)
    | AxesInt a => [a]
    | AxesTuple l => l
    end in
  let nonlinearity :=
    match nonlinearity with
    | None => identity
    | Some f => f
    end in
  shape <- mark_axes input_shape axes ;;
  if existsb is_None shape then Raise ValueError
  else
    let shape := sizes shape in
    Ok (mkLayer input_layer input_shape axes epsilon alpha nonlinearity,
        mkParams (T.constant shape 0) (T.constant shape 0)
                 (T.constant shape 1)).

(** The input shape and the axes that [__init__] works with, and the
    shape it registers the shared variables with when no axis is out of
    range. *)
Definition shape_of_incoming (incoming : incoming_arg) : list (option nat) :=
  match incoming with
  | FromShape s => s
  | FromLayer l => output_shape l
  end.

Definition axes_of (axes : axes_arg) (rank : nat) : list Z :=
  match axes with
  | AxesNone => default_axes rank
  | AxesInt a => [a]
  | AxesTuple l => l
  end.

Fixpoint marked (red : nat -> bool) (d : nat) (shape : list (option nat))
  : list (option nat) :=
  match shape with
  | [] => []
  | o :: shape' => (if red d then Some 1%nat else o) :: marked red (S d) shape'
  end.

Definition valid_axis (rank : nat) (a : Z) : Prop :=
  (- Z.of_nat rank <= a < Z.of_nat rank)%Z.

(** [get_output_for]: the value returned and the shared variables after
    the call.  In training mode the default updates of the two clones are
    applied once by the evaluation that produces the output. *)
Definition get_output_for (self : BatchNormSfhitPow2Layer) (p : params)
    (input : tensor) (deterministic : bool) : tensor * params :=
  let '(mkParams self_centered self_mean self_std) := p in
  let '(mean, std, p') :=
    if deterministic then (self_mean, self_std, p)
    else
      let mean := T.mean input (axes self) in
      let running_mean := self_mean in
      let running_mean_update :=
        T.add (T.muls (1 - alpha self) running_mean)
              (T.muls (alpha self) mean) in
      let centered := T.sub input mean in
      let centered_log2 := T.log2 (T.abs_ centered) in
      let centered_log2 := T.switch (T.eq centered 0) 0 centered_log2 in
      let centered_ap2 := T.pow2 (T.round centered_log2) in
      let std := T.mean (T.mul (T.abs_ centered) centered_ap2) (axes self) in
      let std := T.inv (T.sqrt (T.adds std (epsilon self))) in
      let running_std := self_std in
      let running_std_update :=
        T.add (T.muls (1 - alpha self) running_std)
              (T.muls (alpha self) std) in
      let std := T.pow2 (T.round (T.log2 std)) in
      let mean := T.add mean (T.muls 0 running_mean) in
      let std := T.add std (T.muls 0 running_std) in
      (mean, std,
       mkParams self_centered running_mean_update running_std_update)
  in
  let mean := T.addbroadcast mean (axes self) in
  let std := T.addbroadcast std (axes self) in
  let normalized := T.mul (T.sub input mean) std in
  (nonlinearity self normalized, p').

(** Forward pass of the stack that ends in the layer. *)
Definition get_output (self : BatchNormSfhitPow2Layer) (p : params)
    (x : tensor) (deterministic : bool) : tensor * params :=
  match input_layer self with
  | Some l => get_output_for self p (host_output l x) deterministic
  | None => get_output_for self p x deterministic
  end.

(** [batch_norm_pow_2]: the given layer as the call leaves it, and the
    result of the call. *)
Definition batch_norm_pow_2 (layer : Layer)
  : Layer * result (BatchNormSfhitPow2Layer * params) :=
  let nonlinearity := host_nonlinearity layer in
  let layer :=
    match nonlinearity with
    | Some _ =>
        mkHost (output_shape layer) (Some identity) (b layer)
               (host_params layer) (linear layer) (add_bias layer)
    | None => layer
    end in
  let stack (layer : Layer) :=
    (layer,
     init (FromLayer layer) AxesNone default_epsilon default_alpha
          nonlinearity) in
  match b layer with
  | Missing => stack layer
  | Has key =>
      match key with
      | None => (layer, Raise KeyError)
      | Some k =>
          match py_delitem (host_params layer) k with
          | Raise e => (layer, Raise e)
          | Ok ps =>
              stack (mkHost (output_shape layer) (host_nonlinearity layer)
                            (Has None) ps (linear layer) (add_bias layer))
          end
      end
  end.

(** ** The statistic estimator, step by step

    The values that the training branch of [get_output_for] binds, as
    functions of the batch. *)
Section Estimator.

Variable input : tensor.
Variable axes : list Z.
Variable epsilon : R.

Definition batch_mean : tensor := T.mean input axes.

Definition batch_centered : tensor := T.sub input batch_mean.

Definition batch_centered_log2 : tensor :=
  T.switch (T.eq batch_centered 0) 0 (T.log2 (T.abs_ batch_centered)).

Definition batch_centered_ap2 : tensor :=
  T.pow2 (T.round batch_centered_log2).

Definition variance_surrogate : tensor :=
  T.mean (T.mul (T.abs_ batch_centered) batch_centered_ap2) axes.

Definition std_raw : tensor :=
  T.inv (T.sqrt (T.adds variance_surrogate epsilon)).

Definition std_quantized : tensor :=
  T.pow2 (T.round (T.log2 std_raw)).

End Estimator.

(** Exponential moving average of a stored statistic and a batch value. *)
Definition ema (alpha : R) (running batch : tensor) : tensor :=
  T.add (T.muls (1 - alpha) running) (T.muls alpha batch).

(** The input fits the layer: the stored statistics have the shape of the
    statistics of the batch, that is extent 1 on every reduced axis and
    the extent of the input on every other axis. *)
Definition fits (self : BatchNormSfhitPow2Layer) (p : params)
    (input : tensor) : Prop :=
  let red := reduces (length (shape input)) (axes self) in
  shape (mean p) = kshape red 0 (shape input) /\
  shape (std p) = kshape red 0 (shape input).

(** What one position goes through in lines 83 to 87: the guarded
    logarithm of the centered value, and the product that is averaged into
    the variance surrogate. *)
Definition guarded_log2 (c : fl) : fl :=
  fswitch (feq c (Fin 0)) (Fin 0) (flog2 (fabs c)).

Definition contribution (c : fl) : fl :=
  fmul (fabs c) (fpow2 (fround (guarded_log2 c))).

(** ** The training-mode output as the specification words it

    Section 4.1 and 4.2: the mean [m] over the axes, the variance surrogate
    [v] as the mean of [|x - m| * 2^round(log2 |x - m|)], the scale
    [s = 2^round(log2 (1 / sqrt (v + epsilon)))], and the nonlinearity
    applied to [(x - m) * s]. *)
Definition spec_training_output (nonlinearity : tensor -> tensor)
    (x : tensor) (A : list Z) (epsilon : R) : tensor :=
  let m := T.mean x A in
  let d := T.abs_ (T.sub x m) in
  let v := T.mean (T.mul d (T.pow2 (T.round (T.log2 d)))) A in
  let s := T.pow2 (T.round (T.log2 (T.inv (T.sqrt (T.adds v epsilon))))) in
  nonlinearity (T.mul (T.sub x m) s).

(** ** A small instance

    The batch of four samples with three features of section 8, and a
    layer built for batches of three features that normalises over the
    batch axis. *)
Definition of_rows (rows : list (list R)) : tensor :=
  tabulate [length rows; length (hd [] rows)]
    (fun i =>
       match i with
       | [r; c] => Fin (nth c (nth r rows []) 0)
       | _ => NaN
       end).

Definition example_batch : tensor :=
  of_rows [[1; 2; 3]; [1; 2; 3]; [1; 2; 3]; [5; 2; 3]].

Definition example_layer : BatchNormSfhitPow2Layer :=
  mkLayer None [None; Some 3%nat] [0%Z] default_epsilon default_alpha identity.

Definition example_params : params :=
  mkParams (T.constant [1; 3]%nat 0) (T.constant [1; 3]%nat 0)
           (T.constant [1; 3]%nat 1).

(** ** Instances for the wiring helper *)

Definition with_nonlinearity (self : BatchNormSfhitPow2Layer)
    (g : tensor -> tensor) : BatchNormSfhitPow2Layer :=
  mkLayer (input_layer self) (input_shape self) (axes self) (epsilon self)
          (alpha self) g.

(** The normalisation alone: the forward pass without the final
    nonlinearity. *)
Definition normalize (self : BatchNormSfhitPow2Layer) (p : params)
    (input : tensor) (deterministic : bool) : tensor :=
  fst (get_output_for (with_nonlinearity self identity) p input
         deterministic).

Definition relu : tensor -> tensor :=
  elementwise1 (fun v => match v with
                         | Fin r => Fin (Rmax 0 r)
                         | PInf => PInf
                         | NInf => Fin 0
                         | NaN => NaN
                         end).

(** A dense layer with three units, a rectifier and a bias. *)
Definition dense_host : Layer :=
  mkHost [None; Some 3%nat] (Some relu) (Has (Some "b"%string))
         [("W"%string, ["trainable"%string; "regularizable"%string]);
          ("b"%string, ["trainable"%string])]
         (fun x => x) (fun a => T.adds a 1).

(** A layer with a rectifier and a bias whose output has no specified
    extent on axis 1. *)
Definition unsized_host : Layer :=
  mkHost [None; None] (Some relu) (Has (Some "b"%string))
         [("b"%string, ["trainable"%string])]
         (fun x => x) (fun a => T.adds a 1).

(** ** Batches that a layer was declared for *)

(** A shape agrees with a declared input shape: the same rank, and the
    declared extent wherever one is declared. *)
Definition matches_shape (declared : list (option nat)) (sh : list nat)
  : Prop :=
  Forall2 (fun o n => o = None \/ o = Some n) declared sh.

(** ** Batches of numbers *)

(** The number that an element holds (0 for the special values). *)
Definition fin_val (v : fl) : R :=
  match v with Fin r => r | _ => 0 end.

Definition Rsum (l : list R) : R := fold_right Rplus 0 l.

(** No axis of the shape is empty. *)
Definition positive_extents (sh : list nat) : Prop :=
  Forall (fun n => (0 < n)%nat) sh.

(** The positions of [t] that a reduction over the axes [A] gathers into
    position [i] of its result, the shape of that result, the position of
    the result that position [j] of [t] is gathered into, and the
    arithmetic mean of the numbers gathered into [i]. *)
Definition reduced_into (t : tensor) (A : list Z) (i : index) : list index :=
  fiber (reduces (length (shape t)) A) 0 (shape t) i.

Definition stat_shape (t : tensor) (A : list Z) : list nat :=
  kshape (reduces (length (shape t)) A) 0 (shape t).

Definition stat_index (t : tensor) (A : list Z) (j : index) : index :=
  bidx (stat_shape t A) j.

Definition mean_at (t : tensor) (A : list Z) (i : index) : R :=
  Rsum (map (fun j => fin_val (val t j)) (reduced_into t A i))
  / INR (length (reduced_into t A i)).

(** The variance of the numbers gathered into position [i]: the mean of
    their squared deviations from their mean. *)
Definition variance_at (t : tensor) (A : list Z) (i : index) : R :=
  Rsum (map (fun j => (fin_val (val t j) - mean_at t A i)
                      * (fin_val (val t j) - mean_at t A i))
            (reduced_into t A i))
  / INR (length (reduced_into t A i)).

(** ** Stored statistics that are not all zero, or not all numbers *)

(** A batch without a single number in it. *)
Definition nan_batch : tensor := tabulate [4; 3]%nat (fun _ => NaN).

(** The shared variables after one training call on that batch. *)
Definition poisoned_params : params :=
  snd (get_output_for example_layer example_params nan_batch false).

(** Shared variables with a stored mean of 4 and a stored std of 2. *)
Definition warm_params : params :=
  mkParams (T.constant [1; 3]%nat 0) (T.constant [1; 3]%nat 4)
           (T.constant [1; 3]%nat 2).

(** ** Basic facts about elements *)

Lemma Rzerob_true (r : R) : Rzerob r = true <-> r = 0.
Proof.
  unfold Rzerob. destruct (Req_dec_T r 0); split; intros; congruence.
Qed.

Lemma Rzerob_0 : Rzerob 0 = true.
Proof. apply Rzerob_true. reflexivity. Qed.

Lemma Rzerob_neq (r : R) : r <> 0 -> Rzerob r = false.
Proof.
  intros H. unfold Rzerob. destruct (Req_dec_T r 0); [contradiction | reflexivity].
Qed.

Lemma Rnegb_false (r : R) : 0 <= r -> Rnegb r = false.
Proof.
  intros H. unfold Rnegb. destruct (Rlt_dec r 0); [lra | reflexivity].
Qed.

Lemma Rnegb_true (r : R) : r < 0 -> Rnegb r = true.
Proof.
  intros H. unfold Rnegb. destruct (Rlt_dec r 0); [reflexivity | lra].
Qed.

Lemma Rposb_true (r : R) : 0 < r -> Rposb r = true.
Proof.
  intros H. unfold Rposb. destruct (Rlt_dec 0 r); [reflexivity | lra].
Qed.

Lemma Rposb_false (r : R) : r <= 0 -> Rposb r = false.
Proof.
  intros H. unfold Rposb. destruct (Rlt_dec 0 r); [lra | reflexivity].
Qed.

Lemma fmul_0_finite (x : fl) : is_finite x -> fmul (Fin 0) x = Fin 0.
Proof.
  destruct x; simpl; try contradiction. intros _. f_equal. ring.
Qed.

Lemma fadd_0_r (x : fl) : fadd x (Fin 0) = x.
Proof.
  destruct x; simpl; try reflexivity. f_equal. ring.
Qed.

Lemma fsub_0_r (x : fl) : fsub x (Fin 0) = x.
Proof.
  unfold fsub. simpl. replace (- 0) with 0 by ring. apply fadd_0_r.
Qed.

Lemma fmul_1_r (x : fl) : fmul x (Fin 1) = x.
Proof.
  destruct x; simpl; try reflexivity.
  - f_equal. ring.
  - unfold signed_inf. rewrite Rzerob_neq by lra. rewrite Rposb_true by lra.
    reflexivity.
  - unfold signed_inf. rewrite Rzerob_neq by lra.
    rewrite Rposb_false by lra. reflexivity.
Qed.

(** ** Rounding and powers of two *)

Lemma round_half_away_near (r : R) :
  - / 2 <= IZR (round_half_away r) - r <= / 2.
Proof.
  unfold round_half_away, Rnegb.
  destruct (Rlt_dec r 0) as [Hneg | Hpos].
  - rewrite opp_IZR. pose proof (Zfloor_bound (- r + / 2)). lra.
  - pose proof (Zfloor_bound (r + / 2)). lra.
Qed.

Lemma ln_2_pos : 0 < ln 2.
Proof.
  rewrite <- ln_1. apply ln_increasing; lra.
Qed.

Lemma Rpower_2_log2 (r : R) : 0 < r -> Rpower 2 (log2 r) = r.
Proof.
  intros H. unfold Rpower, log2.
  replace (ln r / ln 2 * ln 2) with (ln r).
  - apply exp_ln. exact H.
  - field. pose proof ln_2_pos. lra.
Qed.

Lemma Rpower_2_pos (y : R) : 0 < Rpower 2 y.
Proof. unfold Rpower. apply exp_pos. Qed.

Lemma Rpower_2_le (a b : R) : a <= b -> Rpower 2 a <= Rpower 2 b.
Proof. intros H. apply Rle_Rpower; lra. Qed.

Lemma Rpower_2_ratio (a b : R) : Rpower 2 a / Rpower 2 b = Rpower 2 (a - b).
Proof.
  unfold Rdiv, Rminus. rewrite Rpower_plus, Rpower_Ropp. reflexivity.
Qed.

(** ** Shapes, indices and equality of tensors *)

Lemma tabulate_ext (sh : list nat) (f g : index -> fl) :
  (forall i, validb sh i = true -> f i = g i) ->
  tabulate sh f = tabulate sh g.
Proof.
  intros H. unfold tabulate. f_equal.
  apply functional_extensionality. intros i.
  destruct (validb sh i) eqn:E; [apply H; exact E | reflexivity].
Qed.

Lemma tabulate_canonical (sh : list nat) (f : index -> fl) :
  canonical (tabulate sh f).
Proof.
  intros i H. simpl in *. rewrite H. reflexivity.
Qed.

Lemma tabulate_val (t : tensor) :
  canonical t -> tabulate (shape t) (val t) = t.
Proof.
  intros H. destruct t as [sh v]. unfold tabulate. simpl in *. f_equal.
  apply functional_extensionality. intros i.
  destruct (validb sh i) eqn:E; [reflexivity | symmetry; apply H; exact E].
Qed.

Lemma tensor_ext (a b : tensor) :
  canonical a -> canonical b ->
  shape a = shape b ->
  (forall i, validb (shape a) i = true -> val a i = val b i) ->
  a = b.
Proof.
  intros Ha Hb Hs Hv.
  rewrite <- (tabulate_val a Ha), <- (tabulate_val b Hb), <- Hs.
  apply tabulate_ext. exact Hv.
Qed.

Lemma val_tabulate (sh : list nat) (f : index -> fl) (i : index) :
  validb sh i = true -> val (tabulate sh f) i = f i.
Proof.
  intros H. simpl. rewrite H. reflexivity.
Qed.

Lemma bidx_valid (sh : list nat) :
  forall i, validb sh i = true -> bidx sh i = i.
Proof.
  induction sh as [| n sh IH]; intros [| k i] H; simpl in *; try reflexivity.
  apply andb_true_iff in H. destruct H as [Hk Hi].
  rewrite (IH i Hi). apply Nat.ltb_lt in Hk.
  destruct (Nat.eqb_spec n 1) as [-> | Hn]; [| reflexivity].
  f_equal. lia.
Qed.

Lemma bshape_same (sh : list nat) : bshape sh sh = sh.
Proof.
  induction sh as [| n sh IH]; simpl; [reflexivity |].
  rewrite IH. destruct (n =? 1)%nat; reflexivity.
Qed.

Lemma bshape_kshape (red : nat -> bool) (sh : list nat) :
  forall d, bshape sh (kshape red d sh) = sh.
Proof.
  induction sh as [| n sh IH]; intros d; simpl; [reflexivity |].
  rewrite IH. destruct (Nat.eqb_spec n 1) as [-> | Hn]; [| reflexivity].
  destruct (red d); reflexivity.
Qed.

Lemma kshape_length (red : nat -> bool) (sh : list nat) :
  forall d, length (kshape red d sh) = length sh.
Proof.
  induction sh as [| n sh IH]; intros d; simpl; [reflexivity |].
  rewrite IH. reflexivity.
Qed.

(** Reading an element-wise result at a valid position. *)
Lemma val_elementwise1 (f : fl -> fl) (t : tensor) (i : index) :
  validb (shape t) i = true ->
  val (elementwise1 f t) i = f (val t i).
Proof.
  intros H. unfold elementwise1. apply val_tabulate. exact H.
Qed.

Lemma shape_elementwise2_same (f : fl -> fl -> fl) (a b : tensor) :
  shape a = shape b -> shape (elementwise2 f a b) = shape a.
Proof.
  intros H. simpl. rewrite <- H. apply bshape_same.
Qed.

Lemma val_elementwise2_same (f : fl -> fl -> fl) (a b : tensor) (i : index) :
  shape a = shape b ->
  validb (shape a) i = true ->
  val (elementwise2 f a b) i = f (val a i) (val b i).
Proof.
  intros Hs Hi. unfold elementwise2.
  rewrite <- Hs, bshape_same, val_tabulate by exact Hi.
  rewrite (bidx_valid _ _ Hi). reflexivity.
Qed.

(** A stored statistic multiplied by zero and added to a batch statistic
    of the same shape leaves the batch statistic as it is. *)
Lemma add_zero_times (t r : tensor) :
  canonical t ->
  shape r = shape t ->
  all_finite r ->
  T.add t (T.muls 0 r) = t.
Proof.
  intros Hc Hs Hf.
  unfold T.add, T.muls, elementwise2.
  change (shape (elementwise1 (fun x => fmul (Fin 0) x) r)) with (shape r).
  rewrite Hs, bshape_same.
  transitivity (tabulate (shape t) (val t)); [| apply tabulate_val; exact Hc].
  apply tabulate_ext. intros i Hi.
  rewrite (bidx_valid _ _ Hi).
  rewrite val_elementwise1 by (rewrite Hs; exact Hi).
  rewrite fmul_0_finite by (apply Hf; rewrite Hs; exact Hi).
  apply fadd_0_r.
Qed.

(** ** Shapes of the estimator's values *)

Section EstimatorShapes.

Variable input : tensor.
Variable axes : list Z.

Let red := reduces (length (shape input)) axes.

Lemma shape_batch_mean :
  shape (batch_mean input axes) = kshape red 0 (shape input).
Proof. reflexivity. Qed.

Lemma shape_batch_centered :
  shape (batch_centered input axes) = shape input.
Proof. simpl. apply bshape_kshape. Qed.

Lemma shape_batch_centered_log2 :
  shape (batch_centered_log2 input axes) = shape input.
Proof.
  unfold batch_centered_log2, T.switch.
  rewrite shape_elementwise2_same by reflexivity.
  apply shape_batch_centered.
Qed.

Lemma shape_batch_centered_ap2 :
  shape (batch_centered_ap2 input axes) = shape input.
Proof. apply shape_batch_centered_log2. Qed.

Lemma shape_contributions :
  shape (T.mul (T.abs_ (batch_centered input axes))
               (batch_centered_ap2 input axes)) = shape input.
Proof.
  unfold T.mul. rewrite shape_elementwise2_same.
  - apply shape_batch_centered.
  - change (shape (T.abs_ (batch_centered input axes)))
      with (shape (batch_centered input axes)).
    rewrite shape_batch_centered, shape_batch_centered_ap2. reflexivity.
Qed.

Lemma shape_variance_surrogate :
  shape (variance_surrogate input axes) = kshape red 0 (shape input).
Proof.
  unfold variance_surrogate, T.mean.
  cbv zeta. unfold tabulate. cbn [shape].
  rewrite shape_contributions. reflexivity.
Qed.

Lemma shape_std_raw (epsilon : R) :
  shape (std_raw input axes epsilon) = kshape red 0 (shape input).
Proof. apply shape_variance_surrogate. Qed.

Lemma shape_std_quantized (epsilon : R) :
  shape (std_quantized input axes epsilon) = kshape red 0 (shape input).
Proof. apply shape_variance_surrogate. Qed.

End EstimatorShapes.

(** ** The two branches of the forward pass *)

Lemma get_output_for_deterministic (self : BatchNormSfhitPow2Layer)
    (p : params) (input : tensor) :
  get_output_for self p input true =
  (nonlinearity self (T.mul (T.sub input (mean p)) (std p)), p).
Proof. destruct p. reflexivity. Qed.

Lemma get_output_for_training (self : BatchNormSfhitPow2Layer)
    (p : params) (input : tensor) :
  get_output_for self p input false =
  (nonlinearity self
     (T.mul (T.sub input
               (T.add (batch_mean input (axes self)) (T.muls 0 (mean p))))
            (T.add (std_quantized input (axes self) (epsilon self))
                   (T.muls 0 (std p)))),
   mkParams (centered p)
            (ema (alpha self) (mean p) (batch_mean input (axes self)))
            (ema (alpha self) (std p)
                 (std_raw input (axes self) (epsilon self)))).
Proof. destruct p. reflexivity. Qed.

(** With stored statistics that fit the batch and hold numbers, the value
    returned in training mode is built from the batch statistics alone. *)
Lemma training_output (self : BatchNormSfhitPow2Layer) (p : params)
    (input : tensor) :
  fits self p input ->
  all_finite (mean p) ->
  all_finite (std p) ->
  fst (get_output_for self p input false) =
  nonlinearity self
    (T.mul (T.sub input (batch_mean input (axes self)))
           (std_quantized input (axes self) (epsilon self))).
Proof.
  intros [Hm Hs] Fm Fs. rewrite get_output_for_training. simpl fst.
  rewrite add_zero_times; [| apply tabulate_canonical | exact Hm | exact Fm].
  rewrite add_zero_times;
    [reflexivity | apply tabulate_canonical | | exact Fs].
  rewrite shape_std_quantized. exact Hs.
Qed.

(** ** The estimator, position by position *)

Lemma round_half_away_0 : round_half_away 0 = 0%Z.
Proof.
  unfold round_half_away. rewrite Rnegb_false by lra.
  apply Zfloor_eq. simpl. lra.
Qed.

Lemma guarded_log2_zero : guarded_log2 (Fin 0) = Fin 0.
Proof.
  unfold guarded_log2, feq, fswitch, truthy.
  destruct (Req_dec_T 0 0) as [_ | H]; [| contradiction].
  rewrite Rzerob_neq by lra. reflexivity.
Qed.

Lemma guarded_log2_nonzero (r : R) :
  r <> 0 -> guarded_log2 (Fin r) = Fin (log2 (Rabs r)).
Proof.
  intros H. unfold guarded_log2, feq, fswitch, truthy.
  destruct (Req_dec_T r 0) as [E | _]; [contradiction |].
  rewrite Rzerob_0. simpl.
  rewrite Rnegb_false by apply Rabs_pos.
  rewrite Rzerob_neq by (apply Rabs_no_R0; exact H).
  reflexivity.
Qed.

Lemma contribution_zero : contribution (Fin 0) = Fin 0.
Proof.
  unfold contribution. rewrite guarded_log2_zero. simpl.
  rewrite Rabs_R0. f_equal. ring.
Qed.

Lemma contribution_unguarded (c : fl) :
  contribution c = fmul (fabs c) (fpow2 (fround (flog2 (fabs c)))).
Proof.
  destruct c as [r | | |];
    try (unfold contribution, guarded_log2, fswitch, feq, truthy;
         rewrite ?Rzerob_0; reflexivity).
  destruct (Req_dec_T r 0) as [-> | Hr].
  - rewrite contribution_zero. simpl. rewrite Rabs_R0.
    rewrite Rnegb_false by lra. rewrite Rzerob_0. simpl. f_equal. ring.
  - unfold contribution. rewrite guarded_log2_nonzero by exact Hr. simpl.
    rewrite Rnegb_false by apply Rabs_pos.
    rewrite Rzerob_neq by (apply Rabs_no_R0; exact Hr).
    reflexivity.
Qed.

Section EstimatorValues.

Variable input : tensor.
Variable axes : list Z.
Variable i : index.
Hypothesis Hi : validb (shape input) i = true.

Let c := batch_centered input axes.

Lemma valid_batch_centered : validb (shape c) i = true.
Proof. unfold c. rewrite shape_batch_centered. exact Hi. Qed.

Lemma val_batch_centered_log2 :
  val (batch_centered_log2 input axes) i = guarded_log2 (val c i).
Proof.
  unfold batch_centered_log2, T.switch.
  rewrite val_elementwise2_same;
    [| reflexivity | apply valid_batch_centered].
  unfold T.eq, T.log2, T.abs_.
  rewrite !val_elementwise1 by apply valid_batch_centered.
  reflexivity.
Qed.

Lemma val_batch_centered_ap2 :
  val (batch_centered_ap2 input axes) i =
  fpow2 (fround (guarded_log2 (val c i))).
Proof.
  unfold batch_centered_ap2, T.pow2, T.round.
  rewrite !val_elementwise1
    by (cbn [shape elementwise1 tabulate];
        rewrite ?shape_batch_centered_log2; exact Hi).
  rewrite val_batch_centered_log2. reflexivity.
Qed.

Lemma val_contributions :
  val (T.mul (T.abs_ c) (batch_centered_ap2 input axes)) i =
  contribution (val c i).
Proof.
  unfold T.mul.
  rewrite val_elementwise2_same.
  - unfold T.abs_. rewrite val_elementwise1 by apply valid_batch_centered.
    rewrite val_batch_centered_ap2. reflexivity.
  - change (shape (T.abs_ c)) with (shape c). unfold c.
    rewrite shape_batch_centered, shape_batch_centered_ap2. reflexivity.
  - apply valid_batch_centered.
Qed.

End EstimatorValues.

(** The products that are averaged into the variance surrogate are the
    same with and without the guard on zero. *)
Lemma contributions_unguarded (input : tensor) (axes : list Z) :
  let c := batch_centered input axes in
  T.mul (T.abs_ c) (batch_centered_ap2 input axes) =
  T.mul (T.abs_ c) (T.pow2 (T.round (T.log2 (T.abs_ c)))).
Proof.
  cbv zeta.
  pose proof (shape_batch_centered input axes) as Hc.
  apply tensor_ext; try apply tabulate_canonical.
  - rewrite shape_contributions. unfold T.mul.
    rewrite shape_elementwise2_same; [symmetry; exact Hc | reflexivity].
  - intros i Hi. rewrite shape_contributions in Hi.
    rewrite val_contributions by exact Hi.
    rewrite contribution_unguarded.
    unfold T.mul. rewrite val_elementwise2_same;
      [| reflexivity | cbn [shape T.abs_ elementwise1 tabulate];
                       rewrite Hc; exact Hi].
    unfold T.abs_, T.pow2, T.round, T.log2.
    rewrite !val_elementwise1
      by (cbn [shape elementwise1 tabulate]; rewrite Hc; exact Hi).
    reflexivity.
Qed.

(** ** The forward pass *)

Lemma constant_all_finite (sh : list nat) (c : R) :
  all_finite (T.constant sh c).
Proof.
  intros i H. simpl in *. rewrite H. exact I.
Qed.

Lemma example_fits : fits example_layer example_params example_batch.
Proof. split; reflexivity. Defined.

Lemma spec_training_output_estimator (f : tensor -> tensor) (x : tensor)
    (A : list Z) (eps : R) :
  spec_training_output f x A eps =
  f (T.mul (T.sub x (batch_mean x A)) (std_quantized x A eps)).
Proof.
  unfold spec_training_output, std_quantized, std_raw, variance_surrogate.
  rewrite contributions_unguarded. reflexivity.
Qed.



(** C6: in inference mode the value returned is computed from the stored
    mean and the stored std alone, the stored statistics are left as they
    are, and a second call returns the same value as the first. *)
Theorem C6_inference_idempotent (self : BatchNormSfhitPow2Layer)
    (p : params) (x : tensor) :
  let first := get_output_for self p x true in
  let second := get_output_for self (snd first) x true in
  fst first = nonlinearity self (T.mul (T.sub x (mean p)) (std p)) /\
  snd first = p /\
  fst second = fst first /\
  snd second = p.
Proof.
  cbv zeta. rewrite !get_output_for_deterministic. simpl.
  rewrite ?get_output_for_deterministic. repeat split.
Qed.

(** C9: a forward call leaves [centered] as it is in either mode and
    leaves all three shared variables as they are in inference mode; the
    value returned and the new mean and std do not depend on what
    [centered] holds. *)
Theorem C9_frame (self : BatchNormSfhitPow2Layer) (p : params)
    (x : tensor) (deterministic : bool) (c' : tensor) :
  let r := get_output_for self p x deterministic in
  let r' := get_output_for self (mkParams c' (mean p) (std p)) x
              deterministic in
  centered (snd r) = centered p /\
  snd (get_output_for self p x true) = p /\
  fst r' = fst r /\
  mean (snd r') = mean (snd r) /\
  std (snd r') = std (snd r) /\
  centered (snd r') = c'.
Proof.
  destruct p as [c m s]. destruct deterministic; cbv zeta; simpl;
    repeat split; reflexivity.
Qed.

(** ** Zero and nonzero centered values *)

Lemma example_centered_zero :
  val (batch_centered example_batch [0%Z]) [0; 1]%nat = Fin 0.
Proof.
  cbn. rewrite Rzerob_neq by lra. cbn. f_equal. lra.
Qed.

Lemma example_centered_nonzero :
  val (batch_centered example_batch [0%Z]) [3; 0]%nat = Fin 3.
Proof.
  cbn. rewrite Rzerob_neq by lra. cbn. f_equal. lra.
Qed.

(** C5: at a position where the centered value is exactly 0 the logarithm
    term is exactly 0, a number and neither [NaN] nor an infinity, and the
    product [|centered| * centered_ap2] that enters the variance surrogate
    is exactly 0. *)
Theorem C5_zero_centered_is_harmless (x : tensor) (A : list Z) (i : index) :
  validb (shape x) i = true ->
  val (batch_centered x A) i = Fin 0 ->
  val (batch_centered_log2 x A) i = Fin 0 /\
  val (T.mul (T.abs_ (batch_centered x A)) (batch_centered_ap2 x A)) i
  = Fin 0.
Proof.
  intros Hi Hz. split.
  - rewrite val_batch_centered_log2 by exact Hi.
    rewrite Hz. apply guarded_log2_zero.
  - rewrite val_contributions by exact Hi.
    rewrite Hz. apply contribution_zero.
Qed.

Lemma C5_zero_centered_is_harmless_witness :
  val (batch_centered_log2 example_batch [0%Z]) [0; 1]%nat = Fin 0 /\
  val (T.mul (T.abs_ (batch_centered example_batch [0%Z]))
             (batch_centered_ap2 example_batch [0%Z])) [0; 1]%nat = Fin 0.
Proof.
  apply (C5_zero_centered_is_harmless example_batch [0%Z] [0; 1]%nat).
  - reflexivity.
  - exact example_centered_zero.
Defined.

Lemma pow2_round_log2_ratio (a : R) :
  0 < a ->
  Rpower 2 (- / 2) <= Rpower 2 (IZR (round_half_away (log2 a))) / a
  <= Rpower 2 (/ 2).
Proof.
  intros Ha.
  rewrite <- (Rpower_2_log2 a Ha) at 2 4.
  rewrite Rpower_2_ratio.
  pose proof (round_half_away_near (log2 a)) as [Hlo Hhi].
  split; apply Rpower_2_le; lra.
Qed.

(** C7: at a position where the centered value is a nonzero number, the
    power of two [2^round(log2 |x - mean|)] divided by [|x - mean|] lies
    between [2^-0.5] and [2^0.5]. *)
Theorem C7_quantisation_ratio (x : tensor) (A : list Z) (i : index) (r : R) :
  validb (shape x) i = true ->
  val (batch_centered x A) i = Fin r ->
  r <> 0 ->
  exists q : R,
    val (batch_centered_ap2 x A) i = Fin q /\
    Rpower 2 (- 0.5) <= q / Rabs r <= Rpower 2 0.5.
Proof.
  intros Hi Hc Hr.
  exists (Rpower 2 (IZR (round_half_away (log2 (Rabs r))))). split.
  - rewrite val_batch_centered_ap2 by exact Hi.
    rewrite Hc, guarded_log2_nonzero by exact Hr. reflexivity.
  - replace (- 0.5) with (- / 2) by lra. replace 0.5 with (/ 2) by lra.
    apply pow2_round_log2_ratio. apply Rabs_pos_lt. exact Hr.
Qed.

Lemma C7_quantisation_ratio_witness :
  exists q : R,
    val (batch_centered_ap2 example_batch [0%Z]) [3; 0]%nat = Fin q /\
    Rpower 2 (- 0.5) <= q / Rabs 3 <= Rpower 2 0.5.
Proof.
  apply (C7_quantisation_ratio example_batch [0%Z] [3; 0]%nat 3).
  - reflexivity.
  - exact example_centered_nonzero.
  - lra.
Defined.

(** ** Construction *)

Lemma init_unfold (incoming : incoming_arg) (arg : axes_arg)
    (eps al : R) (nl : option (tensor -> tensor)) :
  let ishape := shape_of_incoming incoming in
  let axes := axes_of arg (length ishape) in
  init incoming arg eps al nl =
  (shape <- mark_axes ishape axes ;;
   if existsb is_None shape then Raise ValueError
   else
     Ok (mkLayer (match incoming with FromShape _ => None
                                    | FromLayer l => Some l end)
                 ishape axes eps al
                 (match nl with None => identity | Some f => f end),
         mkParams (T.constant (sizes shape) 0) (T.constant (sizes shape) 0)
                  (T.constant (sizes shape) 1))).
Proof. destruct incoming, arg; reflexivity. Qed.

Lemma py_index_valid (len : nat) (a : Z) :
  valid_axis len a ->
  exists n, py_index len a = Some n /\
            (if (a <? 0)%Z then (a + Z.of_nat len)%Z else a) = Z.of_nat n.
Proof.
  unfold valid_axis, py_index. intros [Hlo Hhi].
  destruct (Z.ltb_spec a 0) as [Hneg | Hpos].
  - replace (0 <=? a)%Z with false by (symmetry; apply Z.leb_gt; lia).
    simpl. replace (- Z.of_nat len <=? a)%Z with true
      by (symmetry; apply Z.leb_le; lia).
    simpl. eexists. split; [reflexivity | lia].
  - replace (0 <=? a)%Z with true by (symmetry; apply Z.leb_le; lia).
    replace (a <? Z.of_nat len)%Z with true
      by (symmetry; apply Z.ltb_lt; lia).
    simpl. eexists. split; [reflexivity | lia].
Qed.

Lemma set_nth_length {A : Type} (l : list A) :
  forall n v, length (set_nth l n v) = length l.
Proof.
  induction l as [| x l IH]; intros [| n] v; simpl; try reflexivity.
  rewrite IH. reflexivity.
Qed.

Lemma marked_ext (red red' : nat -> bool) (sh : list (option nat)) :
  forall d, (forall k, red k = red' k) -> marked red d sh = marked red' d sh.
Proof.
  induction sh as [| o sh IH]; intros d H; simpl; [reflexivity |].
  rewrite H, (IH (S d) H). reflexivity.
Qed.

Lemma marked_above (red : nat -> bool) (n : nat) (sh : list (option nat)) :
  forall d, (n < d)%nat ->
    marked (fun k => (k =? n)%nat || red k) d sh = marked red d sh.
Proof.
  induction sh as [| o sh IH]; intros d H; simpl; [reflexivity |].
  rewrite IH by lia.
  destruct (Nat.eqb_spec d n); [lia | reflexivity].
Qed.

Lemma marked_set_nth (red : nat -> bool) (sh : list (option nat)) :
  forall n d,
    marked red d (set_nth sh n (Some 1%nat)) =
    marked (fun k => (k =? d + n)%nat || red k) d sh.
Proof.
  induction sh as [| o sh IH]; intros n d; [destruct n; reflexivity |].
  destruct n as [| n]; simpl.
  - rewrite Nat.add_0_r, Nat.eqb_refl. simpl. f_equal.
    + destruct (red d); reflexivity.
    + symmetry. apply marked_above. lia.
  - rewrite IH.
    replace (d + S n)%nat with (S d + n)%nat by lia.
    destruct (Nat.eqb_spec d (S d + n)); [lia |]. reflexivity.
Qed.

Lemma marked_none (sh : list (option nat)) :
  forall d, marked (fun _ => false) d sh = sh.
Proof.
  induction sh as [| o sh IH]; intros d; simpl; [reflexivity |].
  rewrite IH. reflexivity.
Qed.

(** With axes that are all in range, the loop of the constructor sets to 1
    exactly the extents of the axes that are reduced. *)
Lemma mark_axes_valid (axes : list Z) :
  forall sh,
    Forall (valid_axis (length sh)) axes ->
    mark_axes sh axes = Ok (marked (reduces (length sh) axes) 0 sh).
Proof.
  induction axes as [| a rest IH]; intros sh H.
  - simpl. rewrite (marked_ext _ (fun _ => false)) by reflexivity.
    rewrite marked_none. reflexivity.
  - inversion H as [| ? ? Ha Hrest]; subst.
    destruct (py_index_valid _ _ Ha) as [n [Hn Hnorm]].
    simpl. unfold py_setitem. rewrite Hn. simpl.
    rewrite IH by (rewrite set_nth_length; exact Hrest).
    rewrite set_nth_length, marked_set_nth. f_equal.
    apply marked_ext. intros k. simpl. f_equal.
    rewrite Hnorm.
    destruct (Nat.eqb_spec k n) as [-> | Hk].
    + symmetry. apply Z.eqb_refl.
    + symmetry. apply Z.eqb_neq. lia.
Qed.

Lemma existsb_marked (red : nat -> bool) (sh : list (option nat)) :
  forall d,
    existsb is_None (marked red d sh) = true <->
    exists k, red (d + k)%nat = false /\ nth_error sh k = Some None.
Proof.
  induction sh as [| o sh IH]; intros d; simpl.
  - split; [discriminate |]. intros [[| k] [_ H]]; discriminate.
  - rewrite orb_true_iff, IH. split.
    + intros [H | [k [Hr Hk]]].
      * exists 0%nat. rewrite Nat.add_0_r.
        destruct (red d); [discriminate |].
        destruct o; [discriminate |]. split; reflexivity.
      * exists (S k). rewrite Nat.add_succ_r. split; assumption.
    + intros [[| k] [Hr Hk]].
      * left. rewrite Nat.add_0_r in Hr. rewrite Hr.
        simpl in Hk. injection Hk as ->. reflexivity.
      * right. exists k. rewrite Nat.add_succ_r in Hr. split; assumption.
Qed.



(** ** Inference with the initial statistics *)

Lemma valid_bidx_kshape (red : nat -> bool) (sh : list nat) :
  forall d i,
    validb sh i = true ->
    validb (kshape red d sh) (bidx (kshape red d sh) i) = true.
Proof.
  induction sh as [| n sh IH]; intros d [| k i] H; simpl in *;
    try discriminate; [reflexivity |].
  apply andb_true_iff in H. destruct H as [Hk Hi].
  rewrite (IH (S d) i Hi), andb_true_r.
  destruct (red d); [reflexivity |].
  destruct (Nat.eqb_spec n 1) as [-> | Hn]; [reflexivity | exact Hk].
Qed.

(** Broadcasting a constant of the reduced shape against a tensor is the
    same as applying the operation with that constant everywhere. *)
Lemma elementwise2_constant (f : fl -> fl -> fl) (x : tensor)
    (red : nat -> bool) (d : nat) (c : R) :
  elementwise2 f x (T.constant (kshape red d (shape x)) c) =
  elementwise1 (fun v => f v (Fin c)) x.
Proof.
  unfold elementwise2, elementwise1, T.constant.
  cbn [shape tabulate]. rewrite bshape_kshape.
  apply tabulate_ext. intros i Hi.
  rewrite (bidx_valid _ _ Hi).
  rewrite val_tabulate by (apply valid_bidx_kshape; exact Hi). reflexivity.
Qed.

Lemma elementwise1_id (f : fl -> fl) (x : tensor) :
  canonical x -> (forall v, f v = v) -> elementwise1 f x = x.
Proof.
  intros Hc Hf. unfold elementwise1.
  transitivity (tabulate (shape x) (val x)); [| apply tabulate_val; exact Hc].
  apply tabulate_ext. intros i _. apply Hf.
Qed.

(** C10: the constructor stores zeros in [centered] and [mean] and ones
    in [std]; an inference call on these statistics returns the
    nonlinearity of the input itself. *)
Theorem C10_initial_statistics_pass_through (incoming : incoming_arg)
    (arg : axes_arg) (eps al : R) (nl : option (tensor -> tensor))
    (self : BatchNormSfhitPow2Layer) (p : params) (x : tensor) :
  init incoming arg eps al nl = Ok (self, p) ->
  canonical x ->
  fits self p x ->
  (exists sh, centered p = T.constant sh 0 /\
              mean p = T.constant sh 0 /\
              std p = T.constant sh 1) /\
  fst (get_output_for self p x true) = nonlinearity self x.
Proof.
  intros Hinit Hx [Hm _].
  pose proof (init_unfold incoming arg eps al nl) as E.
  cbv zeta in E. rewrite E in Hinit. clear E.
  destruct (mark_axes _ _) as [sh' | e]; simpl in Hinit; [| discriminate].
  destruct (existsb is_None sh'); [discriminate |].
  injection Hinit as <- <-.
  split; [exists (sizes sh'); repeat split |].
  rewrite get_output_for_deterministic. cbn [fst mean std nonlinearity].
  cbn [mean T.constant tabulate shape] in Hm. rewrite Hm.
  unfold T.mul, T.sub.
  rewrite elementwise2_constant.
  rewrite (elementwise1_id _ x Hx) by apply fsub_0_r.
  rewrite elementwise2_constant.
  rewrite (elementwise1_id _ x Hx) by apply fmul_1_r.
  reflexivity.
Qed.

Lemma example_init :
  init (FromShape [None; Some 3%nat]) (AxesTuple [0%Z]) default_epsilon
       default_alpha None = Ok (example_layer, example_params).
Proof. reflexivity. Defined.

Lemma C10_initial_statistics_pass_through_witness :
  fst (get_output_for example_layer example_params example_batch true) =
  nonlinearity example_layer example_batch.
Proof.
  apply (C10_initial_statistics_pass_through
           (FromShape [None; Some 3%nat]) (AxesTuple [0%Z])
           default_epsilon default_alpha None
           example_layer example_params example_batch).
  - exact example_init.
  - apply tabulate_canonical.
  - exact example_fits.
Defined.

(** ** The stored std *)

Lemma val_mean (t : tensor) (A : list Z) (i : index) :
  let red := reduces (length (shape t)) A in
  validb (kshape red 0 (shape t)) i = true ->
  val (T.mean t A) i =
  fdiv (fsum (map (val t) (fiber red 0 (shape t) i)))
       (Fin (INR (length (map (val t) (fiber red 0 (shape t) i))))).
Proof.
  intros red H. unfold T.mean. fold red. rewrite val_tabulate by exact H.
  reflexivity.
Qed.

Lemma example_centered_column (k : nat) :
  (k < 4)%nat ->
  val (batch_centered example_batch [0%Z]) [k; 1]%nat = Fin 0.
Proof.
  intros H.
  destruct k as [| [| [| [| k]]]]; try lia;
    cbn; rewrite Rzerob_neq by lra; cbn; f_equal; lra.
Qed.

Lemma example_variance_surrogate :
  val (variance_surrogate example_batch [0%Z]) [0; 1]%nat = Fin 0.
Proof.
  unfold variance_surrogate.
  rewrite val_mean by reflexivity.
  rewrite shape_contributions.
  change (fiber (reduces (length (shape example_batch)) [0%Z]) 0
                (shape example_batch) [0; 1]%nat)
    with [[0; 1]; [1; 1]; [2; 1]; [3; 1]]%nat.
  cbn [map length fsum fold_right].
  rewrite !val_contributions by reflexivity.
  rewrite !example_centered_column by lia.
  rewrite contribution_zero.
  cbn. rewrite Rzerob_neq by lra. f_equal. lra.
Qed.

Lemma example_std_raw :
  val (std_raw example_batch [0%Z] default_epsilon) [0; 1]%nat =
  Fin (/ sqrt (0 + default_epsilon)).
Proof.
  assert (He : 0 < 0 + default_epsilon) by (unfold default_epsilon; lra).
  unfold std_raw, T.inv, T.sqrt, T.adds.
  rewrite !val_elementwise1 by reflexivity.
  rewrite example_variance_surrogate. cbn [fadd fsqrt].
  rewrite Rnegb_false by lra. cbn [finv].
  rewrite Rzerob_neq; [reflexivity |].
  pose proof (sqrt_lt_R0 _ He). lra.
Qed.

Lemma Rpower_2_nat (n : nat) : Rpower 2 (INR n) = 2 ^ n.
Proof. apply Rpower_pow. lra. Qed.

(** The reciprocal square root of the default epsilon is not a power of
    two with an integer exponent: its square, 100000, lies strictly
    between the squares of [2^8] and [2^9]. *)
Lemma example_std_raw_not_pow2 (k : Z) :
  Rpower 2 (IZR k) <> / sqrt (0 + default_epsilon).
Proof.
  intros H.
  assert (He : 0 < 0 + default_epsilon) by (unfold default_epsilon; lra).
  assert (Hsq : / sqrt (0 + default_epsilon) * / sqrt (0 + default_epsilon)
                = 100000).
  { rewrite <- Rinv_mult, sqrt_sqrt by lra. unfold default_epsilon. field. }
  rewrite <- H in Hsq.
  pose proof (Rpower_2_pos (IZR k)) as Hpos.
  destruct (Z_le_gt_dec k 8) as [Hk | Hk].
  - assert (Hle : Rpower 2 (IZR k) <= 256).
    { replace 256 with (Rpower 2 (INR 8))
        by (rewrite Rpower_2_nat; simpl; lra).
      apply Rpower_2_le. rewrite INR_IZR_INZ. apply IZR_le. simpl. lia. }
    nra.
  - assert (Hge : 512 <= Rpower 2 (IZR k)).
    { replace 512 with (Rpower 2 (INR 9))
        by (rewrite Rpower_2_nat; simpl; lra).
      apply Rpower_2_le. rewrite INR_IZR_INZ. apply IZR_le. simpl. lia. }
    nra.
Qed.

Lemma C2_counterexample :
  std (snd (get_output_for example_layer example_params example_batch false))
  <> T.add (T.muls (1 - alpha example_layer) (std example_params))
           (T.muls (alpha example_layer)
                   (std_quantized example_batch (axes example_layer)
                                  (epsilon example_layer))).
Proof.
  intros H.
  apply (f_equal (fun t => val t [0; 1]%nat)) in H.
  rewrite get_output_for_training in H. cbn [snd std] in H.
  unfold ema, T.add, T.muls in H.
  rewrite !val_elementwise2_same in H by reflexivity.
  rewrite !val_elementwise1 in H by reflexivity.
  unfold std_quantized, T.pow2, T.round, T.log2 in H.
  rewrite !val_elementwise1 in H by reflexivity.
  cbn [example_layer axes epsilon alpha] in H.
  rewrite example_std_raw in H.
  assert (Hpos : 0 < / sqrt (0 + default_epsilon)).
  { apply Rinv_0_lt_compat, sqrt_lt_R0. unfold default_epsilon. lra. }
  cbn [flog2 fround fpow2] in H.
  rewrite Rnegb_false, Rzerob_neq in H by lra.
  cbn in H. injection H as H.
  apply (example_std_raw_not_pow2
           (round_half_away (log2 (/ sqrt (0 + default_epsilon))))).
  unfold default_alpha in H. lra.
Qed.

(** C2, as the code has it: in training mode the stored std becomes
    [(1 - alpha) * running_std + alpha * std_raw], where [std_raw] is
    [1 / sqrt(variance_surrogate + epsilon)] of step 5, before it is
    quantised; the quantised value [2^round(log2(std_raw))] of step 6
    scales the returned output only. *)
Theorem C2_running_std_update (self : BatchNormSfhitPow2Layer)
    (p : params) (x : tensor) :
  let A := axes self in
  let raw := T.inv (T.sqrt (T.adds (variance_surrogate x A) (epsilon self))) in
  std (snd (get_output_for self p x false)) =
    T.add (T.muls (1 - alpha self) (std p)) (T.muls (alpha self) raw) /\
  fst (get_output_for self p x false) =
    nonlinearity self
      (T.mul (T.sub x (T.add (T.mean x A) (T.muls 0 (mean p))))
             (T.add (T.pow2 (T.round (T.log2 raw))) (T.muls 0 (std p)))).
Proof.
  cbv zeta. rewrite get_output_for_training. split; reflexivity.
Qed.

(** ** The wiring helper *)

Lemma has_key_delete {A : Type} (k : string) (d : list (string * A)) :
  has_key k (filter (fun kv => negb (String.eqb k (fst kv))) d) = false.
Proof.
  induction d as [| [k' v] d IH]; simpl; [reflexivity |].
  destruct (String.eqb k k') eqn:E; simpl; [exact IH |].
  rewrite E. exact IH.
Qed.

Lemma get_output_for_normalize (self : BatchNormSfhitPow2Layer)
    (p : params) (input : tensor) (deterministic : bool) :
  fst (get_output_for self p input deterministic) =
  nonlinearity self (normalize self p input deterministic).
Proof.
  unfold normalize. destruct p, deterministic; reflexivity.
Qed.

Lemma reduces_default_axes (rank d : nat) :
  (d < rank)%nat ->
  reduces rank (default_axes rank) d = negb (d =? 1)%nat.
Proof.
  intros Hd. unfold reduces, default_axes.
  destruct (Nat.eqb_spec d 1) as [-> | Hne]; simpl.
  - apply not_true_is_false. intros H.
    apply existsb_exists in H. destruct H as [a [Hin Ha]].
    apply in_map_iff in Hin. destruct Hin as [n [<- Hn]].
    apply in_seq in Hn.
    destruct (Z.ltb_spec (Z.of_nat n) 0); [lia |].
    apply Z.eqb_eq in Ha. lia.
  - destruct d as [| d]; [reflexivity |].
    simpl. apply existsb_exists. exists (Z.of_nat (S d)). split.
    + apply in_map, in_seq. lia.
    + destruct (Z.ltb_spec (Z.of_nat (S d)) 0); [lia |]. apply Z.eqb_refl.
Qed.

Lemma default_axes_valid (rank : nat) :
  (0 < rank)%nat -> Forall (valid_axis rank) (default_axes rank).
Proof.
  intros H. unfold default_axes. constructor.
  - unfold valid_axis. lia.
  - apply Forall_forall. intros a Ha.
    apply in_map_iff in Ha. destruct Ha as [n [<- Hn]].
    apply in_seq in Hn. unfold valid_axis. lia.
Qed.

(** With the default axes the constructor accepts every shape of rank at
    least 1 whose axis 1 has a specified extent. *)
Lemma init_default_axes_ok (incoming : incoming_arg) (eps al : R)
    (nl : option (tensor -> tensor)) :
  shape_of_incoming incoming <> [] ->
  nth_error (shape_of_incoming incoming) 1 <> Some None ->
  exists bn p, init incoming AxesNone eps al nl = Ok (bn, p).
Proof.
  intros Hrank H1.
  pose proof (init_unfold incoming AxesNone eps al nl) as E.
  cbv zeta in E. rewrite E. clear E. cbn [axes_of].
  set (ishape := shape_of_incoming incoming) in *.
  assert (Hpos : (0 < length ishape)%nat)
    by (destruct ishape; [contradiction | simpl; lia]).
  rewrite (mark_axes_valid _ ishape (default_axes_valid _ Hpos)). simpl.
  destruct (existsb is_None _) eqn:Ex; [| eauto].
  apply existsb_marked in Ex. destruct Ex as [d [Hred Hd]].
  cbn [Nat.add] in Hred.
  assert (Hlt : (d < length ishape)%nat)
    by (apply nth_error_Some; rewrite Hd; discriminate).
  rewrite reduces_default_axes in Hred by exact Hlt.
  destruct (Nat.eqb_spec d 1) as [E | _]; [| discriminate].
  rewrite E in Hd. contradiction.
Qed.

Lemma batch_norm_pow_2_steals (L : Layer) (f : tensor -> tensor)
    (k : string) :
  host_nonlinearity L = Some f ->
  b L = Has (Some k) ->
  has_key k (host_params L) = true ->
  let L' :=
    mkHost (output_shape L) (Some identity) (Has None)
           (filter (fun kv => negb (String.eqb k (fst kv))) (host_params L))
           (linear L) (add_bias L) in
  batch_norm_pow_2 L =
  (L', init (FromLayer L') AxesNone default_epsilon default_alpha (Some f)).
Proof.
  destruct L as [osh nl bb ps lin addb]. simpl. intros -> -> Hk.
  unfold batch_norm_pow_2, py_delitem. simpl. rewrite Hk. reflexivity.
Qed.

Lemma C8_counterexample :
  host_nonlinearity unsized_host = Some relu /\
  b unsized_host = Has (Some "b"%string) /\
  has_key "b"%string (host_params unsized_host) = true /\
  snd (batch_norm_pow_2 unsized_host) = Raise ValueError.
Proof. repeat split; reflexivity. Qed.

(** * Further properties of the code *)

(** ** Axes out of range *)

Lemma valid_axis_dec (rank : nat) (a : Z) :
  {valid_axis rank a} + {~ valid_axis rank a}.
Proof.
  unfold valid_axis.
  destruct (Z_le_dec (- Z.of_nat rank) a), (Z_lt_dec a (Z.of_nat rank));
    (left; lia) || (right; lia).
Qed.

Lemma py_index_invalid (len : nat) (a : Z) :
  ~ valid_axis len a -> py_index len a = None.
Proof.
  unfold valid_axis, py_index. intros H.
  destruct (Z.leb_spec 0 a), (Z.ltb_spec a (Z.of_nat len)); simpl;
    try lia;
    destruct (Z.leb_spec (- Z.of_nat len) a), (Z.ltb_spec a 0); simpl;
    try reflexivity; lia.
Qed.

Lemma mark_axes_invalid (axes : list Z) :
  forall sh,
    Exists (fun a => ~ valid_axis (length sh) a) axes ->
    mark_axes sh axes = Raise IndexError.
Proof.
  induction axes as [| a rest IH]; intros sh H; [inversion H |].
  simpl. unfold py_setitem.
  destruct (valid_axis_dec (length sh) a) as [Ha | Ha].
  - destruct (py_index_valid _ _ Ha) as [n [Hn _]]. rewrite Hn. simpl.
    apply IH. rewrite set_nth_length.
    inversion H; subst; [contradiction | assumption].
  - rewrite (py_index_invalid _ _ Ha). reflexivity.
Qed.

(** The loop of the constructor either marks every axis or stops at the
    first axis that is out of range. *)
Lemma mark_axes_cases (sh : list (option nat)) (axes : list Z) :
  (Forall (valid_axis (length sh)) axes /\
   mark_axes sh axes = Ok (marked (reduces (length sh) axes) 0 sh)) \/
  (Exists (fun a => ~ valid_axis (length sh) a) axes /\
   mark_axes sh axes = Raise IndexError).
Proof.
  destruct (Forall_Exists_dec _ (valid_axis_dec (length sh)) axes) as [F | E].
  - left. split; [exact F | apply mark_axes_valid; exact F].
  - right. split; [exact E | apply mark_axes_invalid; exact E].
Qed.

(** X1: the constructor raises [IndexError] exactly when one of the axes
    is not an index of the input shape, whatever the extents are. *)
Theorem X1_axis_out_of_range (incoming : incoming_arg) (arg : axes_arg)
    (eps al : R) (nl : option (tensor -> tensor)) :
  let ishape := shape_of_incoming incoming in
  init incoming arg eps al nl = Raise IndexError <->
  Exists (fun a => ~ valid_axis (length ishape) a)
         (axes_of arg (length ishape)).
Proof.
  cbv zeta.
  pose proof (init_unfold incoming arg eps al nl) as E.
  cbv zeta in E. rewrite E. clear E.
  destruct (mark_axes_cases (shape_of_incoming incoming)
              (axes_of arg (length (shape_of_incoming incoming))))
    as [[F ->] | [Ex ->]]; simpl.
  - split.
    + destruct (existsb is_None _); discriminate.
    + intros Ex. exfalso.
      apply Exists_exists in Ex. destruct Ex as [a [Hin Ha]].
      apply Ha. rewrite Forall_forall in F. apply F. exact Hin.
  - split; [intros _; exact Ex | reflexivity].
Qed.

(** X2: when the axes are omitted, a layer that is constructed reduces
    every axis of its input except axis 1. *)
Theorem X2_default_axes (incoming : incoming_arg) (eps al : R)
    (nl : option (tensor -> tensor)) (self : BatchNormSfhitPow2Layer)
    (p : params) (d : nat) :
  init incoming AxesNone eps al nl = Ok (self, p) ->
  (d < length (input_shape self))%nat ->
  reduces (length (input_shape self)) (axes self) d = negb (d =? 1)%nat.
Proof.
  intros Hinit Hd.
  pose proof (init_unfold incoming AxesNone eps al nl) as E.
  cbv zeta in E. rewrite E in Hinit. clear E.
  destruct (mark_axes _ _); simpl in Hinit; [| discriminate].
  destruct (existsb is_None _); [discriminate |].
  injection Hinit as <- _. cbn [input_shape axes axes_of] in *.
  apply reduces_default_axes. exact Hd.
Qed.

Lemma X2_default_axes_witness :
  reduces (length (input_shape example_layer)) (axes example_layer) 1
  = negb (1 =? 1)%nat.
Proof.
  apply (X2_default_axes (FromShape [None; Some 3%nat]) default_epsilon
           default_alpha None example_layer example_params 1%nat).
  - reflexivity.
  - simpl. lia.
Defined.

(** ** A constructed layer and its batches *)

Lemma sizes_marked_kshape (red : nat -> bool) (declared : list (option nat))
    (sh : list nat) :
  matches_shape declared sh ->
  forall d,
    existsb is_None (marked red d declared) = false ->
    sizes (marked red d declared) = kshape red d sh.
Proof.
  induction 1 as [| o n declared sh Hon _ IH]; intros d Hex; [reflexivity |].
  simpl in *. apply orb_false_iff in Hex. destruct Hex as [Ho Hrest].
  rewrite (IH (S d) Hrest). f_equal.
  destruct (red d); [reflexivity |].
  destruct Hon as [-> | ->]; [discriminate | reflexivity].
Qed.

(** X3: a layer that was constructed fits every batch whose shape agrees
    with the declared input shape: the shared variables were registered
    with the shape of that batch's statistics. *)
Theorem X3_constructed_layer_fits (incoming : incoming_arg) (arg : axes_arg)
    (eps al : R) (nl : option (tensor -> tensor))
    (self : BatchNormSfhitPow2Layer) (p : params) (x : tensor) :
  init incoming arg eps al nl = Ok (self, p) ->
  matches_shape (shape_of_incoming incoming) (shape x) ->
  fits self p x /\ shape (centered p) = shape (mean p).
Proof.
  intros Hinit Hm.
  pose proof (init_unfold incoming arg eps al nl) as E.
  cbv zeta in E. rewrite E in Hinit. clear E.
  set (ishape := shape_of_incoming incoming) in *.
  assert (Hlen : length ishape = length (shape x))
    by (eapply Forall2_length; exact Hm).
  destruct (mark_axes_cases ishape (axes_of arg (length ishape)))
    as [[_ Hok] | [_ Herr]]; rewrite ?Hok, ?Herr in Hinit;
    simpl in Hinit; [| discriminate].
  destruct (existsb is_None _) eqn:Hex; [discriminate |].
  injection Hinit as <- <-.
  unfold fits. cbn [axes mean std centered T.constant tabulate shape].
  rewrite <- Hlen.
  rewrite (sizes_marked_kshape _ ishape (shape x) Hm 0 Hex).
  repeat split.
Qed.

Lemma X3_constructed_layer_fits_witness :
  fits example_layer example_params example_batch /\
  shape (centered example_params) = shape (mean example_params).
Proof.
  apply (X3_constructed_layer_fits (FromShape [None; Some 3%nat])
           (AxesTuple [0%Z]) default_epsilon default_alpha None
           example_layer example_params example_batch).
  - reflexivity.
  - constructor; [left; reflexivity |].
    constructor; [right; reflexivity | constructor].
Defined.

(** ** Shapes through the forward pass *)

Lemma bshape_bshape_kshape (red : nat -> bool) (sh : list nat) (d : nat) :
  bshape (bshape sh (kshape red d sh)) (kshape red d sh) = sh.
Proof. rewrite !bshape_kshape. reflexivity. Qed.

(** X4: in either mode the normalised tensor, which the nonlinearity is
    applied to, has the shape of the input. *)
Theorem X4_normalisation_keeps_shape (self : BatchNormSfhitPow2Layer)
    (p : params) (x : tensor) (deterministic : bool) :
  fits self p x ->
  shape (normalize self p x deterministic) = shape x.
Proof.
  intros [Hm Hs]. unfold normalize. destruct deterministic.
  - rewrite get_output_for_deterministic. cbn [fst nonlinearity
      with_nonlinearity identity]. unfold identity.
    cbn [T.mul T.sub elementwise2 tabulate shape].
    rewrite Hm, Hs. apply bshape_bshape_kshape.
  - rewrite get_output_for_training. cbn [fst nonlinearity
      with_nonlinearity]. unfold identity.
    cbn [T.mul T.sub T.add T.muls elementwise2 elementwise1 tabulate shape
         axes epsilon with_nonlinearity].
    rewrite shape_std_quantized, shape_batch_mean, Hm, Hs.
    rewrite !bshape_same. apply bshape_bshape_kshape.
Qed.

Lemma X4_normalisation_keeps_shape_witness :
  shape (normalize example_layer example_params example_batch false)
  = shape example_batch.
Proof.
  apply (X4_normalisation_keeps_shape example_layer example_params
           example_batch false).
  exact example_fits.
Defined.

(** X5: a training call keeps the shapes of the stored mean and std, so
    the layer fits after the call every batch that it fitted before. *)
Theorem X5_training_keeps_fit (self : BatchNormSfhitPow2Layer)
    (p : params) (x y : tensor) :
  fits self p x ->
  let p' := snd (get_output_for self p x false) in
  shape (mean p') = shape (mean p) /\
  shape (std p') = shape (std p) /\
  (fits self p y -> fits self p' y).
Proof.
  intros [Hm Hs]. cbv zeta. rewrite get_output_for_training.
  cbn [snd mean std]. unfold ema.
  assert (E1 : shape (T.add (T.muls (1 - alpha self) (mean p))
                        (T.muls (alpha self) (batch_mean x (axes self))))
               = shape (mean p)).
  { cbn [T.add T.muls elementwise2 elementwise1 tabulate shape].
    rewrite shape_batch_mean, Hm. apply bshape_same. }
  assert (E2 : shape (T.add (T.muls (1 - alpha self) (std p))
                        (T.muls (alpha self)
                           (std_raw x (axes self) (epsilon self))))
               = shape (std p)).
  { cbn [T.add T.muls elementwise2 elementwise1 tabulate shape].
    rewrite shape_std_raw, Hs. apply bshape_same. }
  repeat split; try assumption.
  - destruct H as [H _]. cbn [mean]. rewrite E1. exact H.
  - destruct H as [_ H]. cbn [std]. rewrite E2. exact H.
Qed.

Lemma X5_training_keeps_fit_witness :
  fits example_layer
       (snd (get_output_for example_layer example_params example_batch false))
       example_batch.
Proof.
  apply (X5_training_keeps_fit example_layer example_params example_batch
           example_batch example_fits).
  exact example_fits.
Defined.

(** ** The wiring helper on other layers *)

Lemma init_ok_fields (incoming : incoming_arg) (arg : axes_arg)
    (eps al : R) (nl : option (tensor -> tensor))
    (bn : BatchNormSfhitPow2Layer) (p : params) :
  init incoming arg eps al nl = Ok (bn, p) ->
  input_layer bn = match incoming with
                   | FromShape _ => None
                   | FromLayer l => Some l
                   end /\
  nonlinearity bn = match nl with None => identity | Some f => f end /\
  epsilon bn = eps /\ alpha bn = al.
Proof.
  intros H.
  pose proof (init_unfold incoming arg eps al nl) as U.
  cbv zeta in U. rewrite U in H. clear U.
  destruct (mark_axes _ _); simpl in H; [| discriminate].
  destruct (existsb is_None _); [discriminate |].
  injection H as <- _. repeat split.
Qed.

(** X6: a layer whose attribute [b] exists and holds [None], or holds a
    parameter that is not registered, makes the helper raise [KeyError];
    the layer keeps its parameters, but its nonlinearity has already been
    replaced by the identity. *)
Theorem X6_helper_key_error (L : Layer) :
  b L = Has None \/
  (exists k, b L = Has (Some k) /\ has_key k (host_params L) = false) ->
  snd (batch_norm_pow_2 L) = Raise KeyError /\
  host_params (fst (batch_norm_pow_2 L)) = host_params L /\
  b (fst (batch_norm_pow_2 L)) = b L /\
  host_nonlinearity (fst (batch_norm_pow_2 L)) =
    match host_nonlinearity L with
    | Some _ => Some identity
    | None => None
    end.
Proof.
  destruct L as [osh nl bb ps lin addb]. simpl.
  intros [-> | [k [-> Hk]]]; unfold batch_norm_pow_2, py_delitem; simpl.
  - destruct nl; simpl; repeat split.
  - destruct nl; simpl; rewrite Hk; simpl; repeat split.
Qed.

Lemma X6_helper_key_error_witness :
  snd (batch_norm_pow_2
         (mkHost [None; Some 3%nat] (Some relu) (Has None) []
                 (fun x => x) (fun a => a))) = Raise KeyError.
Proof.
  apply (X6_helper_key_error
           (mkHost [None; Some 3%nat] (Some relu) (Has None) []
                   (fun x => x) (fun a => a))).
  left. reflexivity.
Defined.

(** X7: the helper cannot be applied twice.  On the layer that a first
    call on a layer with a nonlinearity and a registered bias leaves
    behind, a second call raises [KeyError] and changes nothing more. *)
Theorem X7_helper_twice (L : Layer) (f : tensor -> tensor) (k : string) :
  host_nonlinearity L = Some f ->
  b L = Has (Some k) ->
  has_key k (host_params L) = true ->
  let L' := fst (batch_norm_pow_2 L) in
  snd (batch_norm_pow_2 L') = Raise KeyError /\
  fst (batch_norm_pow_2 L') = L'.
Proof.
  intros Hnl Hb Hk.
  pose proof (batch_norm_pow_2_steals L f k Hnl Hb Hk) as E.
  cbv zeta in *. rewrite E. cbn [fst]. split; reflexivity.
Qed.

Lemma X7_helper_twice_witness :
  snd (batch_norm_pow_2 (fst (batch_norm_pow_2 dense_host)))
  = Raise KeyError.
Proof.
  apply (X7_helper_twice dense_host relu "b"%string
           eq_refl eq_refl eq_refl).
Defined.

(** X8: on a layer with a nonlinearity and a registered bias the helper
    removes the bias only: every other parameter stays registered with
    its tags, and the output shape and the linear part of the layer are
    untouched. *)
Theorem X8_helper_keeps_other_parameters (L : Layer) (f : tensor -> tensor)
    (k k' : string) (tags : list string) :
  host_nonlinearity L = Some f ->
  b L = Has (Some k) ->
  has_key k (host_params L) = true ->
  k' <> k ->
  let L' := fst (batch_norm_pow_2 L) in
  (In (k', tags) (host_params L') <-> In (k', tags) (host_params L)) /\
  output_shape L' = output_shape L /\
  linear L' = linear L.
Proof.
  intros Hnl Hb Hk Hne.
  pose proof (batch_norm_pow_2_steals L f k Hnl Hb Hk) as E.
  cbv zeta in *. rewrite E. cbn [fst host_params output_shape linear].
  repeat split.
  - intros H. apply filter_In in H. apply H.
  - intros H. apply filter_In. split; [exact H |].
    simpl. apply negb_true_iff. apply String.eqb_neq.
    intros ->. apply Hne. reflexivity.
Qed.

Lemma X8_helper_keeps_other_parameters_witness :
  In ("W"%string, ["trainable"%string; "regularizable"%string])
     (host_params (fst (batch_norm_pow_2 dense_host))) <->
  In ("W"%string, ["trainable"%string; "regularizable"%string])
     (host_params dense_host).
Proof.
  apply (X8_helper_keeps_other_parameters dense_host relu "b"%string
           "W"%string ["trainable"%string; "regularizable"%string]
           eq_refl eq_refl eq_refl).
  discriminate.
Defined.

(** X9: on a layer without the attribute [b] the helper touches no
    parameter; it replaces the nonlinearity, if there is one, by the
    identity and constructs the normalisation layer with it.  When the
    construction succeeds, the output of the stack is that nonlinearity,
    or the identity if the layer had none, applied to the normalisation
    of the layer's linear part. *)
Theorem X9_helper_without_bias (L : Layer) :
  b L = Missing ->
  let L' := fst (batch_norm_pow_2 L) in
  let r := snd (batch_norm_pow_2 L) in
  let g := match host_nonlinearity L with
           | Some f => f
           | None => identity
           end in
  host_params L' = host_params L /\
  b L' = Missing /\
  r = init (FromLayer L') AxesNone default_epsilon default_alpha
           (host_nonlinearity L) /\
  (forall bn p, r = Ok (bn, p) ->
     forall x deterministic,
       fst (get_output bn p x deterministic) =
       g (normalize bn p (linear L x) deterministic)).
Proof.
  destruct L as [osh nl bb ps lin addb]. simpl. intros ->.
  unfold batch_norm_pow_2. simpl.
  destruct nl as [f |]; simpl; repeat split; intros bn p H x det;
    destruct (init_ok_fields _ _ _ _ _ _ _ H) as [Hin [Hnl _]];
    unfold get_output; rewrite Hin; rewrite get_output_for_normalize, Hnl;
    reflexivity.
Qed.

Lemma X9_helper_without_bias_witness :
  host_params
    (fst (batch_norm_pow_2
            (mkHost [None; Some 3%nat] None Missing [] (fun x => x)
                    (fun a => a)))) = [].
Proof.
  apply (X9_helper_without_bias
           (mkHost [None; Some 3%nat] None Missing [] (fun x => x)
                   (fun a => a))).
  reflexivity.
Defined.

(** ** Sums and means of numbers *)

Lemma is_finite_fin_val (v : fl) : is_finite v -> v = Fin (fin_val v).
Proof. destruct v; simpl; try contradiction. reflexivity. Qed.

Lemma fsum_finite (l : list fl) :
  Forall is_finite l -> fsum l = Fin (Rsum (map fin_val l)).
Proof.
  induction 1 as [| v l Hv _ IH]; [reflexivity |].
  simpl. rewrite IH. rewrite (is_finite_fin_val v Hv) at 1. reflexivity.
Qed.

Lemma fdiv_count (s : R) (n : nat) :
  (0 < n)%nat -> fdiv (Fin s) (Fin (INR n)) = Fin (s / INR n).
Proof.
  intros H. unfold fdiv, finv.
  rewrite Rzerob_neq; [reflexivity |].
  apply not_0_INR. lia.
Qed.

Lemma Rsum_nonneg (l : list R) : Forall (fun r => 0 <= r) l -> 0 <= Rsum l.
Proof.
  induction 1 as [| r l Hr _ IH]; simpl; lra.
Qed.

Lemma Rsum_scale (c : R) (l : list R) :
  Rsum (map (fun r => c * r) l) = c * Rsum l.
Proof.
  induction l as [| r l IH]; simpl; [ring | rewrite IH; ring].
Qed.

Lemma Rsum_shift (m : R) (l : list R) :
  Rsum (map (fun r => r - m) l) = Rsum l - INR (length l) * m.
Proof.
  induction l as [| r l IH]; [simpl; ring |].
  cbn [map Rsum fold_right length]. fold (Rsum (map (fun r => r - m) l)).
  fold (Rsum l). rewrite IH, S_INR. ring.
Qed.

Lemma Rsum_between (a b : R) (l : list (R * R)) :
  Forall (fun qr => a * snd qr <= fst qr <= b * snd qr) l ->
  a * Rsum (map snd l) <= Rsum (map fst l) <= b * Rsum (map snd l).
Proof.
  induction 1 as [| [q r] l Hqr _ IH]; simpl in *; lra.
Qed.

(** ** The positions reduced into one *)

Lemma fiber_valid (red : nat -> bool) (sh : list nat) :
  forall d i,
    validb (kshape red d sh) i = true ->
    Forall (fun j => validb sh j = true) (fiber red d sh i).
Proof.
  induction sh as [| n sh IH]; intros d i H.
  - repeat constructor.
  - destruct i as [| k i]; [discriminate |]. simpl in H.
    apply andb_true_iff in H. destruct H as [Hk Hi].
    specialize (IH (S d) i Hi). simpl.
    destruct (red d).
    + apply Forall_forall. intros j Hj.
      apply in_flat_map in Hj. destruct Hj as [k' [Hk' Hj]].
      apply in_map_iff in Hj. destruct Hj as [j' [<- Hj']].
      apply in_seq in Hk'. simpl. apply andb_true_iff. split.
      * apply Nat.ltb_lt. lia.
      * rewrite Forall_forall in IH. apply IH. exact Hj'.
    + apply Forall_forall. intros j Hj.
      apply in_map_iff in Hj. destruct Hj as [j' [<- Hj']].
      simpl. rewrite Hk. rewrite Forall_forall in IH. apply IH. exact Hj'.
Qed.

Lemma fiber_nonempty (red : nat -> bool) (sh : list nat) :
  positive_extents sh ->
  forall d i, (0 < length (fiber red d sh i))%nat.
Proof.
  induction 1 as [| n sh Hn _ IH]; intros d i; [simpl; lia |].
  specialize (IH (S d) (tl i)).
  cbn [fiber]. cbv zeta.
  set (rest := fiber red (S d) sh (tl i)) in *.
  destruct (red d).
  - destruct n as [| n]; [lia |].
    cbn [seq flat_map]. rewrite length_app, length_map.
    apply Nat.lt_lt_add_r. exact IH.
  - rewrite length_map. exact IH.
Qed.

(** Every position of a fiber is read, by broadcasting, at the position
    of the result that the fiber is reduced into. *)
Lemma fiber_bidx (red : nat -> bool) (sh : list nat) :
  forall d i j,
    validb (kshape red d sh) i = true ->
    In j (fiber red d sh i) ->
    bidx (kshape red d sh) j = i.
Proof.
  induction sh as [| n sh IH]; intros d i j H Hj.
  - destruct i; [| discriminate]. simpl in Hj.
    destruct Hj as [<- | []]. reflexivity.
  - destruct i as [| k i]; [discriminate |]. simpl in H.
    apply andb_true_iff in H. destruct H as [Hk Hi].
    apply Nat.ltb_lt in Hk. simpl in Hj.
    destruct (red d) eqn:Hr.
    + apply in_flat_map in Hj. destruct Hj as [k' [_ Hj]].
      apply in_map_iff in Hj. destruct Hj as [j' [<- Hj']].
      simpl. rewrite Hr. simpl.
      rewrite (IH (S d) i j' Hi Hj'). f_equal. lia.
    + apply in_map_iff in Hj. destruct Hj as [j' [<- Hj']].
      simpl. rewrite Hr.
      rewrite (IH (S d) i j' Hi Hj').
      destruct (Nat.eqb_spec n 1); [f_equal; lia | reflexivity].
Qed.

(** The fiber of a position of the input is the fiber of the position
    that it is reduced into. *)
Lemma fiber_self (red : nat -> bool) (sh : list nat) :
  forall d j,
    validb sh j = true ->
    In j (fiber red d sh (bidx (kshape red d sh) j)).
Proof.
  induction sh as [| n sh IH]; intros d j H.
  - destruct j; [| discriminate]. left. reflexivity.
  - destruct j as [| k j]; [discriminate |]. simpl in H.
    apply andb_true_iff in H. destruct H as [Hk Hj].
    apply Nat.ltb_lt in Hk. simpl.
    destruct (red d) eqn:Hr; simpl.
    + apply in_flat_map. exists k. split; [apply in_seq; lia |].
      apply in_map. apply IH. exact Hj.
    + destruct (Nat.eqb_spec n 1) as [-> | Hn]; simpl.
      * replace k with 0%nat by lia. apply in_map. apply IH. exact Hj.
      * apply in_map. apply IH. exact Hj.
Qed.

(** ** The estimator on a batch of numbers *)

Lemma val_mean_finite (t : tensor) (A : list Z) (i : index) :
  all_finite t ->
  positive_extents (shape t) ->
  validb (stat_shape t A) i = true ->
  val (T.mean t A) i = Fin (mean_at t A i).
Proof.
  intros Hfin Hpos Hi. unfold stat_shape in Hi.
  rewrite val_mean by exact Hi. cbv zeta.
  rewrite fsum_finite.
  - rewrite map_map, length_map. unfold mean_at, reduced_into.
    apply fdiv_count. apply fiber_nonempty. exact Hpos.
  - apply Forall_map. eapply Forall_impl; [| apply fiber_valid; exact Hi].
    intros j Hj. apply Hfin. exact Hj.
Qed.

Lemma valid_stat_index (t : tensor) (A : list Z) (j : index) :
  validb (shape t) j = true ->
  validb (stat_shape t A) (stat_index t A j) = true.
Proof. apply valid_bidx_kshape. Qed.

Lemma val_elementwise2_stat (f : fl -> fl -> fl) (c x s : tensor)
    (A : list Z) (j : index) :
  shape c = shape x ->
  shape s = stat_shape x A ->
  validb (shape x) j = true ->
  val (elementwise2 f c s) j = f (val c j) (val s (stat_index x A j)).
Proof.
  intros Hc Hs Hj. unfold elementwise2.
  rewrite Hs, Hc. unfold stat_shape. rewrite bshape_kshape.
  rewrite val_tabulate by exact Hj.
  rewrite (bidx_valid _ _ Hj). reflexivity.
Qed.

Lemma contribution_number (r : R) :
  exists q, contribution (Fin r) = Fin q /\
            Rpower 2 (- / 2) * (r * r) <= q <= Rpower 2 (/ 2) * (r * r).
Proof.
  destruct (Req_dec_T r 0) as [-> | Hr].
  - exists 0. rewrite contribution_zero. split; [reflexivity | lra].
  - exists (Rabs r * Rpower 2 (IZR (round_half_away (log2 (Rabs r))))).
    split.
    + unfold contribution. rewrite guarded_log2_nonzero by exact Hr.
      reflexivity.
    + assert (Ha : 0 < Rabs r) by (apply Rabs_pos_lt; exact Hr).
      pose proof (pow2_round_log2_ratio (Rabs r) Ha) as [Hlo Hhi].
      set (P := Rpower 2 (IZR (round_half_away (log2 (Rabs r))))) in *.
      assert (Hsq : r * r = Rabs r * Rabs r)
        by (rewrite <- Rabs_mult; symmetry; apply Rabs_pos_eq; nra).
      rewrite Hsq.
      apply (Rmult_le_compat_r (Rabs r)) in Hlo; [| lra].
      apply (Rmult_le_compat_r (Rabs r)) in Hhi; [| lra].
      replace (P / Rabs r * Rabs r) with P in * by (field; lra).
      split; nra.
Qed.

Section BatchOfNumbers.

Variable x : tensor.
Variable A : list Z.
Hypothesis Hfin : all_finite x.
Hypothesis Hpos : positive_extents (shape x).

Lemma val_batch_mean_number (i : index) :
  validb (stat_shape x A) i = true ->
  val (batch_mean x A) i = Fin (mean_at x A i).
Proof. apply val_mean_finite; assumption. Qed.

Lemma val_batch_centered_number (j : index) :
  validb (shape x) j = true ->
  val (batch_centered x A) j =
  Fin (fin_val (val x j) - mean_at x A (stat_index x A j)).
Proof.
  intros Hj. unfold batch_centered, T.sub.
  rewrite (val_elementwise2_stat _ x x _ A j) by (reflexivity || exact Hj).
  rewrite val_batch_mean_number by (apply valid_stat_index; exact Hj).
  rewrite (is_finite_fin_val (val x j)) at 1 by (apply Hfin; exact Hj).
  reflexivity.
Qed.

Lemma contributions_all_finite :
  all_finite (T.mul (T.abs_ (batch_centered x A)) (batch_centered_ap2 x A)).
Proof.
  intros j Hj. rewrite shape_contributions in Hj.
  rewrite val_contributions by exact Hj.
  rewrite val_batch_centered_number by exact Hj.
  destruct (contribution_number
              (fin_val (val x j) - mean_at x A (stat_index x A j)))
    as [q [-> _]].
  exact I.
Qed.

Lemma contributions_nonneg (j : index) :
  validb (shape x) j = true ->
  0 <= fin_val (val (T.mul (T.abs_ (batch_centered x A))
                           (batch_centered_ap2 x A)) j).
Proof.
  intros Hj.
  rewrite val_contributions by exact Hj.
  rewrite val_batch_centered_number by exact Hj.
  destruct (contribution_number
              (fin_val (val x j) - mean_at x A (stat_index x A j)))
    as [q [-> [Hlo _]]].
  cbn [fin_val]. eapply Rle_trans; [| exact Hlo].
  apply Rmult_le_pos; [left; apply Rpower_2_pos | apply Rle_0_sqr].
Qed.

Lemma val_variance_surrogate_number (i : index) :
  validb (stat_shape x A) i = true ->
  exists v, val (variance_surrogate x A) i = Fin v /\ 0 <= v.
Proof.
  intros Hi. unfold variance_surrogate.
  pose proof (shape_contributions x A) as Hs.
  eexists. split.
  - apply val_mean_finite.
    + apply contributions_all_finite.
    + rewrite Hs. exact Hpos.
    + unfold stat_shape. rewrite Hs. exact Hi.
  - unfold mean_at, reduced_into. rewrite Hs.
    apply Rmult_le_pos.
    + apply Rsum_nonneg. apply Forall_map.
      eapply Forall_impl; [| apply fiber_valid; exact Hi].
      intros j Hj. apply contributions_nonneg. exact Hj.
    + left. apply Rinv_0_lt_compat. apply lt_0_INR.
      apply fiber_nonempty. exact Hpos.
Qed.

Lemma val_std_raw_number (eps : R) (i : index) :
  0 < eps ->
  validb (stat_shape x A) i = true ->
  exists a, val (std_raw x A eps) i = Fin a /\ 0 < a.
Proof.
  intros Heps Hi.
  destruct (val_variance_surrogate_number i Hi) as [v [Hv Hv0]].
  assert (Hi' : validb (shape (variance_surrogate x A)) i = true)
    by (rewrite shape_variance_surrogate; exact Hi).
  exists (/ sqrt (v + eps)). split.
  - unfold std_raw, T.inv, T.sqrt, T.adds.
    rewrite !val_elementwise1 by exact Hi'.
    rewrite Hv. cbn [fadd fsqrt].
    rewrite Rnegb_false by lra. cbn [finv].
    rewrite Rzerob_neq; [reflexivity |].
    assert (0 < sqrt (v + eps)) by (apply sqrt_lt_R0; lra). lra.
  - apply Rinv_0_lt_compat, sqrt_lt_R0. lra.
Qed.

Lemma val_std_quantized_number (eps : R) (i : index) :
  0 < eps ->
  validb (stat_shape x A) i = true ->
  exists (k : Z) (a : R),
    val (std_raw x A eps) i = Fin a /\ 0 < a /\
    val (std_quantized x A eps) i = Fin (Rpower 2 (IZR k)) /\
    Rpower 2 (- / 2) <= Rpower 2 (IZR k) / a <= Rpower 2 (/ 2).
Proof.
  intros Heps Hi.
  destruct (val_std_raw_number eps i Heps Hi) as [a [Ha Ha0]].
  exists (round_half_away (log2 a)), a.
  repeat split; try assumption.
  - unfold std_quantized, T.pow2, T.round, T.log2.
    rewrite !val_elementwise1
      by (cbn [shape elementwise1 tabulate];
          rewrite ?shape_std_raw; exact Hi).
    rewrite Ha. cbn [flog2].
    rewrite Rnegb_false, Rzerob_neq by lra. reflexivity.
  - apply pow2_round_log2_ratio. exact Ha0.
  - apply pow2_round_log2_ratio. exact Ha0.
Qed.

End BatchOfNumbers.

(** ** The stored statistics stay numbers *)

Lemma ema_all_finite (al : R) (r b : tensor) :
  shape b = shape r ->
  all_finite r -> all_finite b -> all_finite (ema al r b).
Proof.
  intros Hs Hr Hb i Hi. unfold ema, T.add, T.muls in *.
  rewrite shape_elementwise2_same in Hi
    by (cbn [shape elementwise1 tabulate]; symmetry; exact Hs).
  cbn [shape elementwise1 tabulate] in Hi.
  rewrite val_elementwise2_same
    by (cbn [shape elementwise1 tabulate]; (symmetry; exact Hs) || exact Hi).
  rewrite !val_elementwise1 by (rewrite ?Hs; exact Hi).
  specialize (Hr i Hi). rewrite <- Hs in Hi. specialize (Hb i Hi).
  destruct (val r i), (val b i); simpl in *; try contradiction. exact I.
Qed.

(** X10: on a batch of numbers without an empty axis and with a positive
    epsilon, a training call on stored statistics that are numbers leaves
    stored statistics that are numbers. *)
Theorem X10_statistics_stay_numbers (self : BatchNormSfhitPow2Layer)
    (p : params) (x : tensor) :
  all_finite x ->
  positive_extents (shape x) ->
  0 < epsilon self ->
  fits self p x ->
  all_finite (mean p) ->
  all_finite (std p) ->
  let p' := snd (get_output_for self p x false) in
  all_finite (mean p') /\ all_finite (std p').
Proof.
  intros Hfin Hpos Heps [Hm Hs] Fm Fs. cbv zeta.
  rewrite get_output_for_training. cbn [snd mean std]. split.
  - apply ema_all_finite; [rewrite Hm; reflexivity | exact Fm |].
    intros i Hi. rewrite val_batch_mean_number by assumption. exact I.
  - apply ema_all_finite;
      [rewrite Hs; apply shape_std_raw | exact Fs |].
    intros i Hi. rewrite shape_std_raw in Hi.
    destruct (val_std_raw_number x (axes self) Hfin Hpos (epsilon self) i
                Heps Hi) as [a [-> _]].
    exact I.
Qed.

Lemma example_batch_all_finite : all_finite example_batch.
Proof.
  intros i Hi.
  change (shape example_batch) with [4; 3]%nat in Hi.
  unfold example_batch, of_rows. cbn [val tabulate length hd].
  rewrite Hi.
  destruct i as [| r [| c [| ? ?]]]; simpl in Hi;
    rewrite ?andb_false_r in Hi; try discriminate.
  exact I.
Qed.

Lemma example_batch_positive : positive_extents (shape example_batch).
Proof. repeat constructor. Qed.

Lemma default_epsilon_pos : 0 < default_epsilon.
Proof. unfold default_epsilon. lra. Qed.

Lemma X10_statistics_stay_numbers_witness :
  all_finite
    (mean (snd (get_output_for example_layer example_params example_batch
                  false))) /\
  all_finite
    (std (snd (get_output_for example_layer example_params example_batch
                 false))).
Proof.
  apply (X10_statistics_stay_numbers example_layer example_params
           example_batch).
  - exact example_batch_all_finite.
  - exact example_batch_positive.
  - exact default_epsilon_pos.
  - exact example_fits.
  - apply constant_all_finite.
  - apply constant_all_finite.
Defined.

(** ** The scale is a power of two *)

(** X11: on a batch of numbers without an empty axis and with a positive
    epsilon, every entry of the scale that the training output is
    multiplied by is [2^k] for an integer [k], and it differs from the
    reciprocal square root that it quantises by a factor between
    [2^-0.5] and [2^0.5]. *)
Theorem X11_scale_is_power_of_two (x : tensor) (A : list Z) (eps : R)
    (i : index) :
  all_finite x ->
  positive_extents (shape x) ->
  0 < eps ->
  validb (stat_shape x A) i = true ->
  exists (k : Z) (a : R),
    val (std_raw x A eps) i = Fin a /\ 0 < a /\
    val (std_quantized x A eps) i = Fin (Rpower 2 (IZR k)) /\
    Rpower 2 (- 0.5) <= Rpower 2 (IZR k) / a <= Rpower 2 0.5.
Proof.
  intros Hfin Hpos Heps Hi.
  destruct (val_std_quantized_number x A Hfin Hpos eps i Heps Hi)
    as [k [a [Ha [Ha0 [Hq Hr]]]]].
  exists k, a. replace (- 0.5) with (- / 2) by lra.
  replace 0.5 with (/ 2) by lra. repeat split; tauto.
Qed.

Lemma X11_scale_is_power_of_two_witness :
  exists (k : Z) (a : R),
    val (std_raw example_batch [0%Z] default_epsilon) [0; 1]%nat = Fin a /\
    0 < a /\
    val (std_quantized example_batch [0%Z] default_epsilon) [0; 1]%nat
    = Fin (Rpower 2 (IZR k)) /\
    Rpower 2 (- 0.5) <= Rpower 2 (IZR k) / a <= Rpower 2 0.5.
Proof.
  apply (X11_scale_is_power_of_two example_batch [0%Z] default_epsilon
           [0; 1]%nat).
  - exact example_batch_all_finite.
  - exact example_batch_positive.
  - exact default_epsilon_pos.
  - reflexivity.
Defined.

(** ** The normalised batch *)

Lemma normalize_training (self : BatchNormSfhitPow2Layer) (p : params)
    (x : tensor) :
  fits self p x ->
  all_finite (mean p) ->
  all_finite (std p) ->
  normalize self p x false =
  T.mul (batch_centered x (axes self))
        (std_quantized x (axes self) (epsilon self)).
Proof.
  intros Hfit Fm Fs. unfold normalize.
  rewrite training_output by assumption. reflexivity.
Qed.

Lemma val_normalized_number (x : tensor) (A : list Z) (eps : R)
    (j : index) :
  all_finite x ->
  positive_extents (shape x) ->
  0 < eps ->
  validb (shape x) j = true ->
  exists k : Z,
    val (std_quantized x A eps) (stat_index x A j) = Fin (Rpower 2 (IZR k)) /\
    val (T.mul (batch_centered x A) (std_quantized x A eps)) j =
    Fin ((fin_val (val x j) - mean_at x A (stat_index x A j))
         * Rpower 2 (IZR k)).
Proof.
  intros Hfin Hpos Heps Hj.
  destruct (val_std_quantized_number x A Hfin Hpos eps (stat_index x A j)
              Heps (valid_stat_index x A j Hj))
    as [k [a [_ [_ [Hq _]]]]].
  exists k. split; [exact Hq |].
  unfold T.mul.
  rewrite (val_elementwise2_stat _ _ x _ A j);
    [| apply shape_batch_centered | apply shape_std_quantized | exact Hj].
  rewrite Hq, val_batch_centered_number by assumption. reflexivity.
Qed.

(** X12: on a batch of numbers without an empty axis and with a positive
    epsilon, every element that the training pass hands to the
    nonlinearity is the input element minus the mean of its fiber,
    multiplied by [2^k] for an integer [k]. *)
Theorem X12_output_is_shifted_centered_input
    (self : BatchNormSfhitPow2Layer) (p : params) (x : tensor) (j : index) :
  all_finite x ->
  positive_extents (shape x) ->
  0 < epsilon self ->
  fits self p x ->
  all_finite (mean p) ->
  all_finite (std p) ->
  validb (shape x) j = true ->
  exists k : Z,
    val (normalize self p x false) j =
    Fin ((fin_val (val x j)
          - mean_at x (axes self) (stat_index x (axes self) j))
         * Rpower 2 (IZR k)).
Proof.
  intros Hfin Hpos Heps Hfit Fm Fs Hj.
  rewrite normalize_training by assumption.
  destruct (val_normalized_number x (axes self) (epsilon self) j
              Hfin Hpos Heps Hj) as [k [_ Hk]].
  exists k. exact Hk.
Qed.

Lemma X12_output_is_shifted_centered_input_witness :
  exists k : Z,
    val (normalize example_layer example_params example_batch false)
        [3; 0]%nat =
    Fin ((fin_val (val example_batch [3; 0]%nat)
          - mean_at example_batch (axes example_layer)
              (stat_index example_batch (axes example_layer) [3; 0]%nat))
         * Rpower 2 (IZR k)).
Proof.
  apply (X12_output_is_shifted_centered_input example_layer example_params
           example_batch [3; 0]%nat).
  - exact example_batch_all_finite.
  - exact example_batch_positive.
  - exact default_epsilon_pos.
  - exact example_fits.
  - apply constant_all_finite.
  - apply constant_all_finite.
  - reflexivity.
Defined.

Lemma reduced_into_shape (t x : tensor) (A : list Z) (i : index) :
  shape t = shape x -> reduced_into t A i = reduced_into x A i.
Proof. intros H. unfold reduced_into. rewrite H. reflexivity. Qed.

Lemma stat_shape_shape (t x : tensor) (A : list Z) :
  shape t = shape x -> stat_shape t A = stat_shape x A.
Proof. intros H. unfold stat_shape. rewrite H. reflexivity. Qed.

Lemma Rsum_map_ext_in {B : Type} (f g : B -> R) (l : list B) :
  (forall b, In b l -> f b = g b) -> Rsum (map f l) = Rsum (map g l).
Proof.
  intros H. f_equal. apply map_ext_in. exact H.
Qed.

(** X13: on a batch of numbers without an empty axis and with a positive
    epsilon, the normalised batch of a training pass has mean 0 over the
    reduced axes. *)
Theorem X13_normalised_batch_has_zero_mean
    (self : BatchNormSfhitPow2Layer) (p : params) (x : tensor) (i : index) :
  all_finite x ->
  positive_extents (shape x) ->
  0 < epsilon self ->
  fits self p x ->
  all_finite (mean p) ->
  all_finite (std p) ->
  validb (stat_shape x (axes self)) i = true ->
  val (T.mean (normalize self p x false) (axes self)) i = Fin 0.
Proof.
  intros Hfin Hpos Heps Hfit Fm Fs Hi.
  rewrite normalize_training by assumption.
  set (A := axes self) in *. set (eps := epsilon self) in *.
  set (N := T.mul (batch_centered x A) (std_quantized x A eps)).
  assert (HN : shape N = shape x).
  { unfold N, T.mul. cbn [shape elementwise2 tabulate].
    rewrite shape_batch_centered, shape_std_quantized.
    apply bshape_kshape. }
  assert (FN : all_finite N).
  { intros j Hj. rewrite HN in Hj. unfold N.
    destruct (val_normalized_number x A eps j Hfin Hpos Heps Hj)
      as [k [_ ->]]. exact I. }
  rewrite val_mean_finite;
    [| exact FN | rewrite HN; exact Hpos
     | rewrite (stat_shape_shape N x A HN); exact Hi].
  f_equal. unfold mean_at. rewrite (reduced_into_shape N x A i HN).
  set (F := reduced_into x A i).
  assert (Hn : INR (length F) <> 0).
  { apply not_0_INR. pose proof (fiber_nonempty
      (reduces (length (shape x)) A) (shape x) Hpos 0 i) as H.
    unfold F, reduced_into. lia. }
  destruct (val_std_quantized_number x A Hfin Hpos eps i Heps Hi)
    as [k [_ [_ [_ [Hq _]]]]].
  assert (Hsum :
    Rsum (map (fun j => fin_val (val N j)) F) =
    Rsum (map (fun r => Rpower 2 (IZR k) * r)
              (map (fun r => r - mean_at x A i)
                   (map (fun j => fin_val (val x j)) F)))).
  { rewrite !map_map. apply Rsum_map_ext_in. intros j Hj.
    assert (Hv : validb (shape x) j = true).
    { pose proof (fiber_valid (reduces (length (shape x)) A) (shape x) 0 i
                    Hi) as V.
      rewrite Forall_forall in V. apply V. exact Hj. }
    assert (Hidx : stat_index x A j = i)
      by (apply fiber_bidx; [exact Hi | exact Hj]).
    unfold N.
    destruct (val_normalized_number x A eps j Hfin Hpos Heps Hv)
      as [k' [Hk' ->]].
    rewrite Hidx in *. rewrite Hq in Hk'. injection Hk' as Hk'.
    cbn [fin_val]. rewrite Hk'. ring. }
  rewrite Hsum, Rsum_scale, Rsum_shift, length_map.
  unfold mean_at. fold F. field. exact Hn.
Qed.

Lemma X13_normalised_batch_has_zero_mean_witness :
  val (T.mean (normalize example_layer example_params example_batch false)
              (axes example_layer)) [0; 1]%nat = Fin 0.
Proof.
  apply (X13_normalised_batch_has_zero_mean example_layer example_params
           example_batch [0; 1]%nat).
  - exact example_batch_all_finite.
  - exact example_batch_positive.
  - exact default_epsilon_pos.
  - exact example_fits.
  - apply constant_all_finite.
  - apply constant_all_finite.
  - reflexivity.
Defined.

(** ** The variance surrogate and the variance *)

(** X14: on a batch of numbers without an empty axis, every entry of the
    variance surrogate is a number that differs from the variance of the
    batch over the reduced axes by a factor between [2^-0.5] and
    [2^0.5]. *)
Theorem X14_surrogate_approximates_variance (x : tensor) (A : list Z)
    (i : index) :
  all_finite x ->
  positive_extents (shape x) ->
  validb (stat_shape x A) i = true ->
  exists v : R,
    val (variance_surrogate x A) i = Fin v /\
    Rpower 2 (- 0.5) * variance_at x A i <= v
    <= Rpower 2 0.5 * variance_at x A i.
Proof.
  intros Hfin Hpos Hi.
  replace (- 0.5) with (- / 2) by lra. replace 0.5 with (/ 2) by lra.
  set (C := T.mul (T.abs_ (batch_centered x A)) (batch_centered_ap2 x A)).
  pose proof (shape_contributions x A) as HC. fold C in HC.
  exists (mean_at C A i). split.
  - unfold variance_surrogate. fold C. apply val_mean_finite.
    + apply contributions_all_finite; assumption.
    + rewrite HC. exact Hpos.
    + rewrite (stat_shape_shape C x A HC). exact Hi.
  - unfold mean_at. unfold variance_at.
    rewrite (reduced_into_shape C x A i HC).
    set (F := reduced_into x A i).
    assert (Hn : 0 < / INR (length F)).
    { apply Rinv_0_lt_compat, lt_0_INR.
      apply (fiber_nonempty (reduces (length (shape x)) A) (shape x) Hpos
               0 i). }
    set (dev := fun j => fin_val (val x j) - mean_at x A i).
    pose proof (Rsum_between (Rpower 2 (- / 2)) (Rpower 2 (/ 2))
                  (map (fun j => (fin_val (val C j), dev j * dev j)) F))
      as B.
    rewrite !map_map in B. cbn [fst snd] in B.
    assert (HF : Forall
                   (fun qr : R * R =>
                      Rpower 2 (- / 2) * snd qr <= fst qr
                      <= Rpower 2 (/ 2) * snd qr)
                   (map (fun j => (fin_val (val C j), dev j * dev j)) F)).
    { apply Forall_map. apply Forall_forall. intros j Hj. cbn [fst snd].
      assert (Hv : validb (shape x) j = true).
      { pose proof (fiber_valid (reduces (length (shape x)) A) (shape x)
                      0 i Hi) as V.
        rewrite Forall_forall in V. apply V. exact Hj. }
      assert (Hidx : stat_index x A j = i)
        by (apply fiber_bidx; [exact Hi | exact Hj]).
      unfold C. rewrite val_contributions by exact Hv.
      rewrite val_batch_centered_number by assumption.
      rewrite Hidx. fold (dev j).
      destruct (contribution_number (dev j)) as [q [-> Hq]].
      exact Hq. }
    specialize (B HF). destruct B as [Blo Bhi].
    unfold Rdiv. fold dev.
    set (S1 := Rsum (map (fun j => fin_val (val C j)) F)) in *.
    set (S2 := Rsum (map (fun j => dev j * dev j) F)) in *.
    change (Rsum (map (fun j => (fin_val (val x j) - mean_at x A i)
                               * (fin_val (val x j) - mean_at x A i)) F))
      with S2.
    split.
    + rewrite <- Rmult_assoc. apply Rmult_le_compat_r; lra.
    + rewrite <- Rmult_assoc. apply Rmult_le_compat_r; lra.
Qed.

Lemma X14_surrogate_approximates_variance_witness :
  exists v : R,
    val (variance_surrogate example_batch [0%Z]) [0; 0]%nat = Fin v /\
    Rpower 2 (- 0.5) * variance_at example_batch [0%Z] [0; 0]%nat <= v
    <= Rpower 2 0.5 * variance_at example_batch [0%Z] [0; 0]%nat.
Proof.
  apply (X14_surrogate_approximates_variance example_batch [0%Z]
           [0; 0]%nat).
  - exact example_batch_all_finite.
  - exact example_batch_positive.
  - reflexivity.
Defined.

(** * The stored statistics in the returned value *)

Lemma fadd_NaN_r (x : fl) : fadd x NaN = NaN.
Proof. destruct x; reflexivity. Qed.

Lemma fmul_NaN_l (y : fl) : fmul NaN y = NaN.
Proof. destruct y; reflexivity. Qed.

Lemma fmul_NaN_r (x : fl) : fmul x NaN = NaN.
Proof. destruct x; reflexivity. Qed.

Lemma poisoned_fits : fits example_layer poisoned_params example_batch.
Proof. split; reflexivity. Qed.

Lemma warm_fits : fits example_layer warm_params example_batch.
Proof. split; reflexivity. Defined.

(** One training call on a batch without numbers leaves a stored mean
    without numbers. *)
Lemma poisoned_mean_nan : val (mean poisoned_params) [0; 1]%nat = NaN.
Proof.
  unfold poisoned_params. rewrite get_output_for_training.
  cbn [snd mean]. unfold ema, T.add, T.muls.
  rewrite val_elementwise2_same by reflexivity.
  rewrite !val_elementwise1 by reflexivity.
  unfold batch_mean. rewrite val_mean by reflexivity.
  cbn. reflexivity.
Qed.

(** On that store the training pass returns [NaN] where the batch alone
    gives a number. *)
Lemma poisoned_output_nan :
  val (fst (get_output_for example_layer poisoned_params example_batch false))
      [0; 1]%nat = NaN.
Proof.
  rewrite get_output_for_training.
  cbn [fst nonlinearity example_layer axes epsilon]. unfold identity.
  unfold T.mul.
  rewrite (val_elementwise2_stat _ _ example_batch _ [0%Z] [0; 1]%nat)
    by reflexivity.
  unfold T.sub at 1.
  rewrite (val_elementwise2_stat _ _ example_batch _ [0%Z] [0; 1]%nat)
    by reflexivity.
  change (stat_index example_batch [0%Z] [0; 1]%nat) with [0; 1]%nat.
  unfold T.add at 1, T.muls at 1.
  rewrite val_elementwise2_same by reflexivity.
  rewrite (val_elementwise1 _ (mean poisoned_params)) by reflexivity.
  rewrite poisoned_mean_nan.
  rewrite fmul_NaN_r, fadd_NaN_r.
  unfold fsub. cbn [fneg]. rewrite fadd_NaN_r. apply fmul_NaN_l.
Qed.

Lemma example_training_output_number :
  exists r : R,
    val (T.mul (T.sub example_batch (batch_mean example_batch [0%Z]))
               (std_quantized example_batch [0%Z] default_epsilon))
        [0; 1]%nat = Fin r.
Proof.
  destruct (val_normalized_number example_batch [0%Z] default_epsilon
              [0; 1]%nat example_batch_all_finite example_batch_positive
              default_epsilon_pos eq_refl) as [k [_ H]].
  eexists. exact H.
Qed.



(** * The stored mean after a training call *)

Lemma example_batch_mean_first :
  val (T.mean example_batch [0%Z]) [0; 0]%nat = Fin 2.
Proof.
  cbn. rewrite Rzerob_neq by lra. f_equal. lra.
Qed.



(** * An axis out of range and an unspecified extent *)


(** * The wiring helper and the constructor's errors *)

(** With the axes omitted the constructor raises [IndexError] on the empty
    shape, [ValueError] on a shape whose axis 1 has no specified extent,
    and succeeds on every other shape. *)
Lemma init_default_axes_cases (incoming : incoming_arg) (eps al : R)
    (nl : option (tensor -> tensor)) :
  let sh := shape_of_incoming incoming in
  let r := init incoming AxesNone eps al nl in
  (sh = [] /\ r = Raise IndexError) \/
  (sh <> [] /\ nth_error sh 1 = Some None /\ r = Raise ValueError) \/
  (sh <> [] /\ nth_error sh 1 <> Some None /\ exists bn p, r = Ok (bn, p)).
Proof.
  cbv zeta.
  destruct (shape_of_incoming incoming) as [| o sh] eqn:E.
  - left. split; [reflexivity |].
    pose proof (init_unfold incoming AxesNone eps al nl) as U.
    cbv zeta in U. rewrite U, E. reflexivity.
  - right.
    assert (Hne : o :: sh <> []) by discriminate.
    destruct (nth_error (o :: sh) 1) as [[n |] |] eqn:H1.
    + right. repeat split; try discriminate.
      apply init_default_axes_ok; rewrite E; [exact Hne |].
      rewrite H1. discriminate.
    + left. repeat split; try discriminate.
      pose proof (init_unfold incoming AxesNone eps al nl) as U.
      cbv zeta in U. rewrite U, E. clear U. cbn [axes_of].
      assert (Hpos : (0 < length (o :: sh))%nat) by (simpl; lia).
      rewrite (mark_axes_valid _ (o :: sh) (default_axes_valid _ Hpos)).
      cbn [bind].
      assert (Hex : existsb is_None
                      (marked (reduces (length (o :: sh))
                                 (default_axes (length (o :: sh)))) 0
                              (o :: sh)) = true).
      { apply existsb_marked. exists 1%nat. split; [| exact H1].
        cbn [Nat.add]. rewrite reduces_default_axes; [reflexivity |].
        apply nth_error_Some. rewrite H1. discriminate. }
      rewrite Hex. reflexivity.
    + right. repeat split; try discriminate.
      apply init_default_axes_ok; rewrite E; [exact Hne |].
      rewrite H1. discriminate.
Qed.

(** C8, as the code has it: for a layer with a nonlinearity [f] and a
    registered bias parameter, the helper sets the layer's nonlinearity to
    the identity, removes the bias from the layer's parameters and sets
    the attribute [b] to [None], and then constructs the normalisation
    layer on the modified layer with the default axes and [f] as its
    nonlinearity.  The construction succeeds exactly when the layer's
    output shape is not empty and its axis 1, if there is one, has a
    specified extent; it raises [ValueError] exactly when axis 1 has no
    specified extent and [IndexError] exactly when the output shape is
    empty.  When it succeeds, the output of the stack is [f] applied to
    the normalisation of the layer's pre-activation. *)
Theorem C8_wiring_helper (L : Layer) (f : tensor -> tensor) (k : string) :
  host_nonlinearity L = Some f ->
  b L = Has (Some k) ->
  has_key k (host_params L) = true ->
  let L' := fst (batch_norm_pow_2 L) in
  let r := snd (batch_norm_pow_2 L) in
  host_nonlinearity L' = Some identity /\
  b L' = Has None /\
  has_key k (host_params L') = false /\
  r = init (FromLayer L') AxesNone default_epsilon default_alpha (Some f) /\
  ((exists bn p, r = Ok (bn, p)) <->
   (output_shape L <> [] /\ nth_error (output_shape L) 1 <> Some None)) /\
  (r = Raise ValueError <-> nth_error (output_shape L) 1 = Some None) /\
  (r = Raise IndexError <-> output_shape L = []) /\
  (forall bn p, r = Ok (bn, p) ->
     input_layer bn = Some L' /\
     nonlinearity bn = f /\
     forall x deterministic,
       fst (get_output bn p x deterministic) =
       f (normalize bn p (linear L x) deterministic)).
Proof.
  intros Hnl Hb Hk.
  pose proof (batch_norm_pow_2_steals L f k Hnl Hb Hk) as E.
  cbv zeta in *. rewrite E. cbn [fst snd].
  set (L' := mkHost _ _ _ _ _ _) in *.
  pose proof (init_default_axes_cases (FromLayer L') default_epsilon
                default_alpha (Some f)) as C.
  cbv zeta in C.
  change (shape_of_incoming (FromLayer L')) with (output_shape L) in C.
  set (r := init (FromLayer L') AxesNone default_epsilon default_alpha
                 (Some f)) in *.
  split; [reflexivity |]. split; [reflexivity |].
  split; [apply has_key_delete |]. split; [reflexivity |].
  split; [| split; [| split]].
  - destruct C as [[Hs Hr] | [[Hs [H1 Hr]] | [Hs [H1 Hr]]]].
    + split.
      * intros [bn [p H]]. rewrite Hr in H. discriminate.
      * intros [Hn _]. contradiction.
    + split.
      * intros [bn [p H]]. rewrite Hr in H. discriminate.
      * intros [_ Hn]. contradiction.
    + split; [intros _; split; assumption | intros _; exact Hr].
  - destruct C as [[Hs Hr] | [[Hs [H1 Hr]] | [Hs [H1 [bn [p Hr]]]]]].
    + split.
      * intros H. rewrite Hr in H. discriminate.
      * intros H. rewrite Hs in H. discriminate.
    + split; [intros _; exact H1 | intros _; exact Hr].
    + split.
      * intros H. rewrite Hr in H. discriminate.
      * intros H. contradiction.
  - destruct C as [[Hs Hr] | [[Hs [H1 Hr]] | [Hs [H1 [bn [p Hr]]]]]].
    + split; [intros _; exact Hs | intros _; exact Hr].
    + split.
      * intros H. rewrite Hr in H. discriminate.
      * intros H. contradiction.
    + split.
      * intros H. rewrite Hr in H. discriminate.
      * intros H. contradiction.
  - intros bn p H.
    destruct (init_ok_fields _ _ _ _ _ _ _ H) as [Hin [Hf _]].
    split; [exact Hin |]. split; [exact Hf |].
    intros x deterministic. unfold get_output. rewrite Hin.
    rewrite get_output_for_normalize, Hf. reflexivity.
Qed.

Lemma C8_wiring_helper_witness :
  host_nonlinearity (fst (batch_norm_pow_2 dense_host)) = Some identity /\
  b (fst (batch_norm_pow_2 dense_host)) = Has None /\
  has_key "b"%string (host_params (fst (batch_norm_pow_2 dense_host)))
  = false /\
  exists bn p, snd (batch_norm_pow_2 dense_host) = Ok (bn, p).
Proof.
  pose proof (C8_wiring_helper dense_host relu "b"%string
                eq_refl eq_refl eq_refl) as H.
  cbv zeta in H.
  destruct H as [H1 [H2 [H3 [_ [H5 _]]]]].
  repeat split; try assumption.
  apply H5. split; discriminate.
Defined.
